(** * rpcx.Client: a reconnecting wrapper around net/rpc sessions

    Shallow embedding of [client.go] (package rpcx) and the properties of its
    connection lifecycle, heartbeat monitor and call dispatcher.

    The wrapper keeps an atomically swappable pointer to a [*rpc.Client], a
    mutex-protected pair of flags, and the options captured by [Dial].  Every
    exported method that changes the flags holds the mutex for its whole body,
    so each of them is embedded as one atomic transition on the pair
    (client, world).  The world holds what lives outside the wrapper: the heap
    of net/rpc sessions and the trace of what the wrapper did to the
    transport, the network and the logger.  What the outside answers (whether
    a dial succeeds, what a codec's Close returns, when and how a remote call
    completes, which ready branch a [select] takes) is read from an
    environment [Env], over which every theorem is quantified.

    The dispatcher takes no lock: it reads the pointer once and talks to the
    session it found.  The loop of [monitor] holds the mutex only to read
    [closed]; its iteration is given both as one step ([monitor_tick], the
    iteration that nothing interrupts) and in its pieces ([fine_step]: the
    check, the probe, the handler), between which anything else may happen.
    Code of the caller (interceptors, a heartbeat handler of its own) is
    given by what it does with the client's exported methods or with the
    invoker. *)

From Stdlib Require Import ZArith NArith Bool List Lia.
From stdpp Require Import base list strings.
Import ListNotations.

Local Open Scope string_scope.
Local Open Scope list_scope.
Local Open Scope Z_scope.

(** ** Values *)

(** Go's [error] values that the wrapper tells apart.  [nil] is [None] in
    [option error].  [rpc.ErrShutdown] is one distinguished value, compared
    by identity in the source ([err != rpc.ErrShutdown]). *)
Inductive error : Type :=
| ErrShutdown                      (* rpc.ErrShutdown, re-exported as rpcx.ErrShutdown *)
| Canceled                         (* context.Canceled *)
| DeadlineExceeded                 (* context.DeadlineExceeded *)
| OtherError (msg : string).       (* any other error: dial failure, codec error, server error *)

Definition is_ErrShutdown (e : error) : bool :=
  match e with ErrShutdown => true | _ => false end.

(** [args interface{}]: the request handed to the transport.  The heartbeat
    sends a pointer to an empty struct. *)
Inductive Payload : Type :=
| EmptyStruct
| Data (body : string).

(** [time.Duration] counts nanoseconds. *)
Definition Duration := Z.
Definition Millisecond : Duration := 1000000.
Definition Second : Duration := 1000 * Millisecond.

(** ** Cancellation tokens ([context.Context])

    A context is described by how it was built.  Delays are nanoseconds
    counted from the moment the dispatcher starts to wait; a context whose
    deadline has passed by then, or which was cancelled before, fires at
    delay 0. *)
Inductive Context : Type :=
| Background
| context_WithValue (parent : Context) (key val : string)
| context_WithTimeout (parent : Context) (d : Duration)
| context_WithCancel (parent : Context) (cancelled_after : option N).

(** [ctx == context.Background()] *)
Definition is_Background (ctx : Context) : bool :=
  match ctx with Background => true | _ => false end.

(** The earlier of the parent's firing and the context's own; the parent's
    error is inherited when it fires no later. *)
Definition earlier (parent : option (N * error)) (own : N * error) : N * error :=
  match parent with
  | Some (tp, ep) => if (tp <=? fst own)%N then (tp, ep) else own
  | None => own
  end.

(** [ctx.Done()] and [ctx.Err()]: when the Done channel is closed, if ever,
    and the error reported from then on. *)
Fixpoint ctx_Done (ctx : Context) : option (N * error) :=
  match ctx with
  | Background => None
  | context_WithValue parent _ _ => ctx_Done parent
  | context_WithTimeout parent d => Some (earlier (ctx_Done parent) (Z.to_N d, DeadlineExceeded))
  | context_WithCancel parent None => ctx_Done parent
  | context_WithCancel parent (Some n) => Some (earlier (ctx_Done parent) (n, Canceled))
  end.

(** Modelled from the spec: [peer.NewContext] of the repository's [peer]
    package, which is not among the sources.  The spec describes its result
    as the "cancellation token enriched with the remote address as
    contextual metadata": a value context over the caller's token. *)
Definition peer_NewContext (ctx : Context) (address : string) : Context :=
  context_WithValue ctx "peer" address.

(** ** The transport: net/rpc sessions, the network, the logger *)

(** The part of [rpc.Client] that decides what [Close] and [Go] answer:
    [closing] is set by the first [Close], [shutdown] when the connection is
    lost under the session. *)
Record rpcClient : Type := mkRpcClient {
  closing : bool;
  shutdown : bool
}.

Inductive Logger : Type :=
| defaultLogger
| userLogger (name : string).

(** What the wrapper did to the outside, oldest first. *)
Inductive Event : Type :=
| EvDial (network address : string) (timeout keepAlive : Duration)
| EvNewClient (p : nat)                                   (* rpc.NewClient(conn) returned session p *)
| EvClose (p : nat)                                       (* rpcClient.Close() on session p *)
| EvGo (p : nat) (serviceMethod : string) (args : Payload) (* rpcClient.Go on session p *)
| EvErrorf (l : Logger) (format : string) (arg : error).  (* logger.Errorf(format, err.Error()) *)

Record World : Type := mkWorld {
  sessions : list rpcClient;      (* the heap of *rpc.Client; a pointer is an index *)
  trace : list Event
}.

Definition emit (e : Event) (w : World) : World :=
  mkWorld (sessions w) (trace w ++ [e]).

(** The answers of the outside.  Each is indexed by the length of the trace
    at the moment of asking, so that the same question can be answered
    differently later (a dial that fails now and succeeds on the next try). *)
Record Env : Type := mkEnv {
  dial_answer : nat -> string -> string -> Duration -> option error;
    (* net.Dialer.Dial: nil with a connection, or the dial error *)
  codec_Close : nat -> nat -> option error;
    (* the codec's Close of session p *)
  round_trip : nat -> nat -> string -> Payload -> option (N * option error);
    (* a request written on a live session: never answered, or completed
       after a delay with call.Error *)
  delegation_latency : nat -> N;
    (* how long the goroutine of goContext takes to deliver the call *)
  select_first : nat -> bool;
    (* which branch a select takes when both are ready: true for the first *)
  send_blocks : nat -> nat -> bool
    (* for a request that is never completed: whether that is because Go
       itself never returned, its send blocked on a saturated transport *)
}.

(** ** net/rpc's session operations

    These are the Go standard library's, not the repository's; they are
    written down as net/rpc documents and implements them. *)

(** [rpc.NewClient(conn)]: a fresh session at the next free address. *)
Definition rpc_NewClient (w : World) : nat * World :=
  let p := length (sessions w) in
  (p, mkWorld (sessions w ++ [mkRpcClient false false]) (trace w ++ [EvNewClient p])).

(** [rpc.Client.Close]: "If the connection is already shutting down,
    ErrShutdown is returned"; otherwise the session is marked closing and the
    codec's Close result is returned.  A pointer outside the heap does not
    occur (see [client_valid]); the definition answers ErrShutdown there. *)
Definition rpc_Close (E : Env) (p : nat) (w : World) : option error * World :=
  let w' := emit (EvClose p) w in
  match sessions w !! p with
  | Some s =>
      if closing s then (Some ErrShutdown, w')
      else (codec_Close E (length (trace w)) p,
            mkWorld (<[p := mkRpcClient true (shutdown s)]> (sessions w)) (trace w'))
  | None => (Some ErrShutdown, w')
  end.

(** [*rpc.Call], the future of an asynchronous call.  [Done] says whether the
    buffered Done channel already holds the call.  For a call in flight
    [Error] is still nil and [completion] is what the transport will do with
    it: never complete it, or complete it after a delay with an error. *)
Record rpcCall : Type := mkCall {
  ServiceMethod : string;
  Args : Payload;
  Error : option error;
  Done : bool;
  completion : option (N * option error)
}.

(** A call that was completed on the spot with [err] (the literal
    [&rpc.Call{...}] followed by [call.Done <- call]). *)
Definition completed_call (serviceMethod : string) (args : Payload) (err : error) : rpcCall :=
  mkCall serviceMethod args (Some err) true (Some (0%N, Some err)).

(** [rpc.Client.Go] with a fresh buffered Done channel.  Go registers the
    call and writes the request before it returns.  A session that is
    closing or shut down completes the call at once with ErrShutdown.  On a
    live one the request is sent and the transport completes the call later,
    if at all; when the transport is saturated the send does not return, and
    neither does Go: the result is [None]. *)
Definition rpc_Go (E : Env) (p : nat) (serviceMethod : string) (args : Payload) (w : World)
  : option rpcCall * World :=
  let w' := emit (EvGo p serviceMethod args) w in
  match sessions w !! p with
  | Some s =>
      if closing s || shutdown s then (Some (completed_call serviceMethod args ErrShutdown), w')
      else
        match round_trip E (length (trace w)) p serviceMethod args with
        | Some answer => (Some (mkCall serviceMethod args None false (Some answer)), w')
        | None =>
            if send_blocks E (length (trace w)) p then (None, w')
            else (Some (mkCall serviceMethod args None false None), w')
        end
  | None => (Some (completed_call serviceMethod args ErrShutdown), w')
  end.

(** The connection under session [p] is lost (the server went away): the
    session's input loop ends and marks it shut down. *)
Definition sever (p : nat) (w : World) : World :=
  match sessions w !! p with
  | Some s => mkWorld (<[p := mkRpcClient (closing s) true]> (sessions w)) (trace w)
  | None => w
  end.

(** ** Results of the dispatcher *)

(** A synchronous call returns an error value (nil on success) or never
    returns: Go does not return, or it waits on a call that is never
    completed with a token that never fires. *)
Inductive CallResult : Type :=
| Returned (err : option error)
| Blocked.

(** [<-rpcClient.Go(...).Done] then [call.Error]: the receive starts once
    Go has returned the call. *)
Definition await (call : option rpcCall) : CallResult :=
  match call with
  | Some call =>
      match completion call with
      | Some (_, err) => Returned err
      | None => Blocked
      end
  | None => Blocked
  end.

(** [select { case call := <-rpcClient.Go(...).Done: return call.Error
              case <-ctx.Done(): return ctx.Err() }]:
    the channel operand is evaluated first, so nothing is selected before Go
    has returned the call.  Then the branch that becomes ready first is
    taken; when both are ready together Go picks one of them, here the
    environment does. *)
Definition select_call (E : Env) (i : nat) (call : option rpcCall) (ctx : Context)
  : CallResult :=
  match call with
  | None => Blocked
  | Some call =>
      match completion call, ctx_Done ctx with
      | None, None => Blocked
      | Some (_, err), None => Returned err
      | None, Some (_, cerr) => Returned (Some cerr)
      | Some (d, err), Some (t, cerr) =>
          if (d <? t)%N then Returned err
          else if (t <? d)%N then Returned (Some cerr)
          else if select_first E i then Returned err else Returned (Some cerr)
      end
  end.

(** ** Options *)

Definition CallInvoker : Type :=
  Context -> string -> Payload -> World -> CallResult * World.

(** An asynchronous call returns the call, or never returns ([None]). *)
Definition GoInvoker : Type :=
  Context -> string -> Payload -> World -> option rpcCall * World.

(** An interceptor is code of the caller that is handed the token, the
    method, the request and an invoker.  It reaches the transport through
    the invoker only, so it is given as what it does with the invoker: return
    a result of its own, or invoke (with a token, method and request of its
    choosing) and go on from what the invoker returned. *)
Inductive Intercept (R : Type) : Type :=
| Return (r : R)
| Invoke (ctx : Context) (serviceMethod : string) (args : Payload) (k : R -> Intercept R).

Arguments Return {R} r.
Arguments Invoke {R} ctx serviceMethod args k.

Definition CallInterceptor : Type :=
  Context -> string -> Payload -> Intercept (option error).
Definition GoInterceptor : Type :=
  Context -> string -> Payload -> Intercept rpcCall.

(** Running the body of a call interceptor against an invoker.  An invoker
    that never returns leaves the interceptor waiting in it. *)
Fixpoint intercept_call (body : Intercept (option error)) (invoker : CallInvoker) (w : World)
  : CallResult * World :=
  match body with
  | Return err => (Returned err, w)
  | Invoke ctx serviceMethod args k =>
      match invoker ctx serviceMethod args w with
      | (Returned err, w1) => intercept_call (k err) invoker w1
      | (Blocked, w1) => (Blocked, w1)
      end
  end.

Fixpoint intercept_go (body : Intercept rpcCall) (invoker : GoInvoker) (w : World)
  : option rpcCall * World :=
  match body with
  | Return call => (Some call, w)
  | Invoke ctx serviceMethod args k =>
      match invoker ctx serviceMethod args w with
      | (Some call, w1) => intercept_go (k call) invoker w1
      | (None, w1) => (None, w1)
      end
  end.

(** The exported methods of [*Client], as a caller or a handler invokes
    them.  The reply slot is filled by the transport and is left out. *)
Inductive Cmd : Type :=
| CmdReset
| CmdClose
| CmdCall (serviceMethod : string) (args : Payload)
| CmdCallContext (ctx : Context) (serviceMethod : string) (args : Payload)
| CmdGo (serviceMethod : string) (args : Payload)
| CmdGoContext (ctx : Context) (serviceMethod : string) (args : Payload).

(** [PingHandler func(pingResult error, client *Client)].  A handler written
    by a user lives outside the package and reaches the client through its
    exported methods only: it is given as the commands it issues for a probe
    result. *)
Inductive PingHandler : Type :=
| defaultPingHandler
| userPingHandler (body : option error -> list Cmd).

Record dialOptions : Type := mkDialOptions {
  network : string;
  address : string;
  timeout : Duration;
  block : bool;
  logger : option Logger;
  pingServiceMethod : string;
  pingInterval : Duration;
  pingHandler : option PingHandler;
  callInterceptor : option CallInterceptor;
  goInterceptor : option GoInterceptor
}.

(** The zero value of [dialOptions], as in [var client Client]. *)
Definition zero_dialOptions : dialOptions :=
  mkDialOptions "" "" 0 false None "" 0 None None None.

Definition DialOption : Type := dialOptions -> dialOptions.

Definition withNetworkAddress (network' address' : string) : DialOption :=
  fun o => mkDialOptions network' address' (timeout o) (block o) (logger o)
             (pingServiceMethod o) (pingInterval o) (pingHandler o)
             (callInterceptor o) (goInterceptor o).

Definition WithTimeout (d : Duration) : DialOption :=
  fun o =>
    let d := if d <=? 0 then 5 * Second else d in
    mkDialOptions (network o) (address o) d (block o) (logger o)
      (pingServiceMethod o) (pingInterval o) (pingHandler o)
      (callInterceptor o) (goInterceptor o).

Definition WithBlock : DialOption :=
  fun o => mkDialOptions (network o) (address o) (timeout o) true (logger o)
             (pingServiceMethod o) (pingInterval o) (pingHandler o)
             (callInterceptor o) (goInterceptor o).

Definition WithLogger (l : option Logger) : DialOption :=
  fun o =>
    match l with
    | None => o
    | Some _ =>
        mkDialOptions (network o) (address o) (timeout o) (block o) l
          (pingServiceMethod o) (pingInterval o) (pingHandler o)
          (callInterceptor o) (goInterceptor o)
    end.

Definition WithHeartbeat (pingServiceMethod' : string) (interval : Duration)
    (handler : option PingHandler) : DialOption :=
  fun o =>
    if String.eqb pingServiceMethod' "" then o
    else
      let interval := if interval <=? 0 then 500 * Millisecond else interval in
      let handler := match handler with None => defaultPingHandler | Some h => h end in
      mkDialOptions (network o) (address o) (timeout o) (block o) (logger o)
        pingServiceMethod' interval (Some handler)
        (callInterceptor o) (goInterceptor o).

Definition WithCallInterceptor (interceptor : option CallInterceptor) : DialOption :=
  fun o =>
    match interceptor with
    | None => o
    | Some _ =>
        mkDialOptions (network o) (address o) (timeout o) (block o) (logger o)
          (pingServiceMethod o) (pingInterval o) (pingHandler o)
          interceptor (goInterceptor o)
    end.

Definition WithGoInterceptor (interceptor : option GoInterceptor) : DialOption :=
  fun o =>
    match interceptor with
    | None => o
    | Some _ =>
        mkDialOptions (network o) (address o) (timeout o) (block o) (logger o)
          (pingServiceMethod o) (pingInterval o) (pingHandler o)
          (callInterceptor o) interceptor
    end.

(** ** The client *)

Record Client : Type := mkClient {
  client : option nat;            (* unsafe.Pointer to the *rpc.Client, may be nil *)
  closeCanBeCalled : bool;
  closed : bool;
  client_dialOptions : dialOptions
}.

(** [atomic.LoadPointer(&client.client)] *)
Definition getClient (c : Client) : option nat := client c.

(** [atomic.StorePointer(&client.client, ...)] *)
Definition setClient (rpcClient : option nat) (c : Client) : Client :=
  mkClient rpcClient (closeCanBeCalled c) (closed c) (client_dialOptions c).

Definition set_closeCanBeCalled (b : bool) (c : Client) : Client :=
  mkClient (client c) b (closed c) (client_dialOptions c).

Definition set_closed (b : bool) (c : Client) : Client :=
  mkClient (client c) (closeCanBeCalled c) b (client_dialOptions c).

(** [client.dialOptions.logger.Errorf(format, err.Error())].  [Dial] never
    leaves the logger nil (lemma [Dial_logger]). *)
Definition Errorf (c : Client) (format : string) (err : error) (w : World) : World :=
  match logger (client_dialOptions c) with
  | Some l => emit (EvErrorf l format err) w
  | None => w
  end.

(** *** Reset (the spec's reconnect) *)

(** The second half of [Reset]: dial with the configured timeout and a
    keep-alive of 30s, and install a new session over the connection. *)
Definition Reset_dial (E : Env) (c : Client) (w : World) : option error * Client * World :=
  let o := client_dialOptions c in
  let w1 := emit (EvDial (network o) (address o) (timeout o) (30 * Second)) w in
  match dial_answer E (length (trace w)) (network o) (address o) (timeout o) with
  | Some err => (Some err, c, w1)
  | None =>
      let '(p, w2) := rpc_NewClient w1 in
      (None, setClient (Some p) (set_closeCanBeCalled true c), w2)
  end.

Definition Reset (E : Env) (c : Client) (w : World) : option error * Client * World :=
  if closed c then (Some ErrShutdown, c, w)
  else
    match getClient c with
    | Some rpcClient =>
        let c1 := set_closeCanBeCalled false c in
        let '(err, w1) := rpc_Close E rpcClient w in
        match err with
        | Some e => if is_ErrShutdown e then Reset_dial E c1 w1 else (Some e, c1, w1)
        | None => Reset_dial E c1 w1
        end
    | None => Reset_dial E c w
    end.

(** *** Close *)

Definition Close (E : Env) (c : Client) (w : World) : option error * Client * World :=
  let c1 := set_closed true c in
  match getClient c1 with
  | None => (Some ErrShutdown, c1, w)
  | Some rpcClient =>
      if negb (closeCanBeCalled c1) then (None, set_closeCanBeCalled true c1, w)
      else let '(err, w1) := rpc_Close E rpcClient w in (err, c1, w1)
  end.

Definition RemoteAddress (c : Client) : string := address (client_dialOptions c).

(** *** The call dispatcher *)

Definition callContext (E : Env) (c : Client) : CallInvoker :=
  fun ctx serviceMethod args w =>
    match getClient c with
    | None => (Returned (Some ErrShutdown), w)
    | Some rpcClient =>
        if is_Background ctx then
          let '(call, w1) := rpc_Go E rpcClient serviceMethod args w in
          (await call, w1)
        else
          let '(call, w1) := rpc_Go E rpcClient serviceMethod args w in
          (select_call E (length (trace w1)) call ctx, w1)
    end.

Definition CallContext (E : Env) (c : Client) (ctx : Context) (serviceMethod : string)
    (args : Payload) (w : World) : CallResult * World :=
  match callInterceptor (client_dialOptions c) with
  | Some interceptor =>
      let ctx := peer_NewContext ctx (address (client_dialOptions c)) in
      intercept_call (interceptor ctx serviceMethod args) (callContext E c) w
  | None => callContext E c ctx serviceMethod args w
  end.

Definition Call (E : Env) (c : Client) (serviceMethod : string) (args : Payload) (w : World)
  : CallResult * World :=
  CallContext E c Background serviceMethod args w.

Definition goContext (E : Env) (c : Client) : GoInvoker :=
  fun ctx serviceMethod args w =>
    match getClient c with
    | None => (Some (completed_call serviceMethod args ErrShutdown), w)
    | Some rpcClient =>
        if is_Background ctx then rpc_Go E rpcClient serviceMethod args w
        else
          (* the goroutine delivers rpcClient.Go's call on [done] after its
             latency, or never when Go does not return; the select races
             that against ctx.Done() *)
          let '(call, w1) := rpc_Go E rpcClient serviceMethod args w in
          let g := delegation_latency E (length (trace w)) in
          match ctx_Done ctx with
          | None => (call, w1)
          | Some (t, cerr) =>
              match call with
              | None => (Some (completed_call serviceMethod args cerr), w1)
              | Some _ =>
                  if (g <? t)%N then (call, w1)
                  else if (t <? g)%N then (Some (completed_call serviceMethod args cerr), w1)
                  else if select_first E (length (trace w1)) then (call, w1)
                  else (Some (completed_call serviceMethod args cerr), w1)
              end
          end
    end.

Definition GoContext (E : Env) (c : Client) (ctx : Context) (serviceMethod : string)
    (args : Payload) (w : World) : option rpcCall * World :=
  match goInterceptor (client_dialOptions c) with
  | Some interceptor =>
      let ctx := peer_NewContext ctx (address (client_dialOptions c)) in
      intercept_go (interceptor ctx serviceMethod args) (goContext E c) w
  | None => goContext E c ctx serviceMethod args w
  end.

Definition Go (E : Env) (c : Client) (serviceMethod : string) (args : Payload) (w : World)
  : option rpcCall * World :=
  GoContext E c Background serviceMethod args w.

(** *** The exported methods as commands *)

Inductive Result : Type :=
| ResError (r : CallResult)            (* Reset, Close, Call, CallContext *)
| ResCall (call : option rpcCall).     (* Go, GoContext *)

(** Whether the method came back to its caller. *)
Definition returned (r : Result) : bool :=
  match r with
  | ResError (Returned _) => true
  | ResError Blocked => false
  | ResCall (Some _) => true
  | ResCall None => false
  end.

Definition run_cmd (E : Env) (cmd : Cmd) (c : Client) (w : World) : Result * Client * World :=
  match cmd with
  | CmdReset => let '(err, c1, w1) := Reset E c w in (ResError (Returned err), c1, w1)
  | CmdClose => let '(err, c1, w1) := Close E c w in (ResError (Returned err), c1, w1)
  | CmdCall m a => let '(r, w1) := Call E c m a w in (ResError r, c, w1)
  | CmdCallContext ctx m a => let '(r, w1) := CallContext E c ctx m a w in (ResError r, c, w1)
  | CmdGo m a => let '(call, w1) := Go E c m a w in (ResCall call, c, w1)
  | CmdGoContext ctx m a => let '(call, w1) := GoContext E c ctx m a w in (ResCall call, c, w1)
  end.

(** Commands issued one after the other by one goroutine: a command that
    does not return keeps the goroutine, and the rest is never issued.
    [run_cmds] is the state left, [cmds_return] whether all came back. *)
Fixpoint run_cmds (E : Env) (cmds : list Cmd) (c : Client) (w : World) : Client * World :=
  match cmds with
  | [] => (c, w)
  | cmd :: rest =>
      let '(r, c1, w1) := run_cmd E cmd c w in
      if returned r then run_cmds E rest c1 w1 else (c1, w1)
  end.

Fixpoint cmds_return (E : Env) (cmds : list Cmd) (c : Client) (w : World) : bool :=
  match cmds with
  | [] => true
  | cmd :: rest =>
      let '(r, c1, w1) := run_cmd E cmd c w in
      if returned r then cmds_return E rest c1 w1 else false
  end.

(** *** The heartbeat *)

Definition ping (E : Env) (c : Client) (w : World) : CallResult * World :=
  let ctx := context_WithTimeout Background (3 * Second) in
  callContext E c ctx (pingServiceMethod (client_dialOptions c)) EmptyStruct w.

(** The function [defaultPingHandler] of the source. *)
Definition defaultPingHandler_run (E : Env) (result : option error) (c : Client) (w : World)
  : Client * World :=
  match result with
  | None => (c, w)
  | Some e =>
      if negb (is_ErrShutdown e) then
        (c, Errorf c "[error][rpcx]: ping: %s" e w)
      else
        match Reset E c w with
        | (Some err, c1, w1) => (c1, Errorf c1 "[error][rpcx]: Reset: %s" err w1)
        | (None, c1, w1) => (c1, w1)
        end
  end.

(** [pingHandler(err, client)] *)
Definition run_pingHandler (E : Env) (h : PingHandler) (result : option error)
    (c : Client) (w : World) : Client * World :=
  match h with
  | defaultPingHandler => defaultPingHandler_run E result c w
  | userPingHandler body => run_cmds E (body result) c w
  end.

(** Whether [pingHandler(err, client)] returns.  The default handler
    always does. *)
Definition pingHandler_returns (E : Env) (h : PingHandler) (result : option error)
    (c : Client) (w : World) : bool :=
  match h with
  | defaultPingHandler => true
  | userPingHandler body => cmds_return E (body result) c w
  end.

(** One iteration of the loop of [monitor], entered when the ticker
    delivers a tick and run without anything else happening in between. *)
Inductive Tick : Type :=
| TickReturn                          (* closed: the goroutine returns *)
| TickHandled (c : Client) (w : World) (* probe sent, handler run: wait for the next tick *)
| TickStuck (w : World)               (* the probe never returned *)
| TickStuckInHandler (c : Client) (w : World) (* the handler never returned *)
| TickPanic (w : World).              (* nil handler called *)

Definition monitor_tick (E : Env) (c : Client) (w : World) : Tick :=
  if closed c then TickReturn
  else
    match ping E c w with
    | (Returned err, w1) =>
        match pingHandler (client_dialOptions c) with
        | Some h =>
            let '(c2, w2) := run_pingHandler E h err c w1 in
            if pingHandler_returns E h err c w1 then TickHandled c2 w2
            else TickStuckInHandler c2 w2
        | None => TickPanic w1
        end
    | (Blocked, w1) => TickStuck w1
    end.

(** *** Dial *)

(** [for _, opt := range opts { opt(&client.dialOptions) }] *)
Definition apply_options (opts : list DialOption) (o : dialOptions) : dialOptions :=
  fold_left (fun o opt => opt o) opts o.

(** The options of the client that [Dial] builds. *)
Definition Dial_options (network' address' : string) (opts : list DialOption) : dialOptions :=
  let o := apply_options (opts ++ [withNetworkAddress network' address']) zero_dialOptions in
  match logger o with
  | None => WithLogger (Some defaultLogger) o
  | Some _ => o
  end.

(** A client together with the world and the goroutines [Dial] started for
    it: [connecting] while the background [Reset] of a non-blocking [Dial]
    has not run yet, [monitoring] while the goroutine of [monitor] handles
    ticks (it has not returned, and is not held in a probe or a handler that
    never returns). *)
Record System : Type := mkSystem {
  sys_client : Client;
  sys_world : World;
  connecting : bool;
  monitoring : bool
}.

Definition starts_monitor (o : dialOptions) : bool :=
  negb (String.eqb (pingServiceMethod o) "") && (0 <? pingInterval o).

(** [Dial] returns the client, or the error of the first connect when
    [WithBlock] was given and it failed. *)
Definition Dial (E : Env) (network' address' : string) (opts : list DialOption) (w : World)
  : System + error * World :=
  let o := Dial_options network' address' opts in
  let c := mkClient None true false o in
  if block o then
    match Reset E c w with
    | (Some err, _, w1) => inr (err, w1)
    | (None, c1, w1) => inl (mkSystem c1 w1 false (starts_monitor o))
    end
  else inl (mkSystem c w true (starts_monitor o)).

(** ** Interleavings

    What can happen to a dialed client, one step at a time: a caller invokes
    an exported method, the background connect of a non-blocking [Dial] runs,
    the ticker fires, or the network drops the connection of a session.
    Every method that changes the client does so under the mutex, and is one
    step.  [ActTick] is an iteration of the monitor that nothing
    interrupts; the monitor taken piece by piece, with everything else free
    to act between its check, its probe and its handler, is [fine_step]
    below. *)
Inductive Action : Type :=
| ActCmd (cmd : Cmd)
| ActConnect
| ActTick
| ActSever (p : nat).

Definition step (E : Env) (a : Action) (s : System) : System :=
  match a with
  | ActCmd cmd =>
      let '(_, c1, w1) := run_cmd E cmd (sys_client s) (sys_world s) in
      mkSystem c1 w1 (connecting s) (monitoring s)
  | ActConnect =>
      if connecting s then
        match Reset E (sys_client s) (sys_world s) with
        | (Some err, c1, w1) =>
            mkSystem c1 (Errorf c1 "[error][rpcx]: Reset: %s" err w1) false (monitoring s)
        | (None, c1, w1) => mkSystem c1 w1 false (monitoring s)
        end
      else s
  | ActTick =>
      if monitoring s then
        match monitor_tick E (sys_client s) (sys_world s) with
        | TickReturn => mkSystem (sys_client s) (sys_world s) (connecting s) false
        | TickHandled c1 w1 => mkSystem c1 w1 (connecting s) true
        | TickStuckInHandler c1 w1 => mkSystem c1 w1 (connecting s) false
        | TickStuck w1 | TickPanic w1 => mkSystem (sys_client s) w1 (connecting s) false
        end
      else s
  | ActSever p => mkSystem (sys_client s) (sever p (sys_world s)) (connecting s) (monitoring s)
  end.

Definition run (E : Env) (acts : list Action) (s : System) : System :=
  fold_left (fun s a => step E a s) acts s.

(** The goroutine of [monitor] over the next [n] ticks, nothing else
    happening in between: it stops at the first tick that finds the client
    closed, or that it does not come back from. *)
Fixpoint monitor (E : Env) (n : nat) (c : Client) (w : World) : bool * Client * World :=
  match n with
  | O => (true, c, w)
  | S n' =>
      match monitor_tick E c w with
      | TickReturn => (false, c, w)
      | TickHandled c1 w1 => monitor E n' c1 w1
      | TickStuckInHandler c1 w1 => (false, c1, w1)
      | TickStuck w1 | TickPanic w1 => (false, c, w1)
      end
  end.

(** The states a dialed client can be in. *)
Inductive reachable (E : Env) : System -> Prop :=
| reachable_Dial network' address' opts w s :
    Dial E network' address' opts w = inl s ->
    reachable E s
| reachable_step a s :
    reachable E s ->
    reachable E (step E a s).

(** ** Option lists

    [dialOptions] is unexported, so the options a caller can pass to [Dial]
    are exactly the results of the exported [With...] functions. *)
Inductive OptionCall : Type :=
| CallWithTimeout (d : Duration)
| CallWithBlock
| CallWithLogger (l : option Logger)
| CallWithHeartbeat (pingServiceMethod' : string) (interval : Duration)
    (handler : option PingHandler)
| CallWithCallInterceptor (interceptor : option CallInterceptor)
| CallWithGoInterceptor (interceptor : option GoInterceptor).

Definition option_of (oc : OptionCall) : DialOption :=
  match oc with
  | CallWithTimeout d => WithTimeout d
  | CallWithBlock => WithBlock
  | CallWithLogger l => WithLogger l
  | CallWithHeartbeat m i h => WithHeartbeat m i h
  | CallWithCallInterceptor i => WithCallInterceptor i
  | CallWithGoInterceptor i => WithGoInterceptor i
  end.

(** The duration of the last [WithTimeout] of the list, if there is one. *)
Fixpoint last_timeout (ocs : list OptionCall) : option Duration :=
  match ocs with
  | [] => None
  | oc :: rest =>
      match last_timeout rest with
      | Some d => Some d
      | None => match oc with CallWithTimeout d => Some d | _ => None end
      end
  end.

(** The interval of the last [WithHeartbeat] of the list that names a probe
    method, if there is one. *)
Fixpoint last_heartbeat (ocs : list OptionCall) : option Duration :=
  match ocs with
  | [] => None
  | oc :: rest =>
      match last_heartbeat rest with
      | Some i => Some i
      | None =>
          match oc with
          | CallWithHeartbeat m i _ => if String.eqb m "" then None else Some i
          | _ => None
          end
      end
  end.

(** ** What holds of every state *)

(** [rpcClient.Close()] has been called on session [p]. *)
Definition close_attempted (w : World) (p : nat) : Prop := In (EvClose p) (trace w).

(** Session [p] exists and is marked closing. *)
Definition session_closing (w : World) (p : nat) : bool :=
  match sessions w !! p with
  | Some s => closing s
  | None => false
  end.

(** The stored pointer, when not nil, points into the heap. *)
Definition client_valid (c : Client) (w : World) : Prop :=
  forall p, client c = Some p -> (p < length (sessions w))%nat.

(** The lifecycle invariant: the pointer is valid; while the close
    permission is withdrawn a session is held and its close has been
    attempted; once the client is closed, the session it still refers to is
    closing. *)
Record lifecycle_inv (c : Client) (w : World) : Prop := mk_lifecycle_inv {
  inv_valid : client_valid c w;
  inv_permission :
    closeCanBeCalled c = false ->
    exists p, client c = Some p /\ close_attempted w p /\ session_closing w p = true;
  inv_closed :
    closed c = true -> forall p, client c = Some p -> session_closing w p = true
}.

(** The world only grows: sessions are never freed, a closing session stays
    closing, the trace is extended. *)
Record world_le (w w' : World) : Prop := mk_world_le {
  le_sessions : (length (sessions w) <= length (sessions w'))%nat;
  le_closing : forall p, session_closing w p = true -> session_closing w' p = true;
  le_trace : forall e, In e (trace w) -> In e (trace w')
}.

(** What a call does to the world: the heap is untouched, the trace grows. *)
Definition extends (w w' : World) : Prop :=
  sessions w' = sessions w /\ exists evs, trace w' = trace w ++ evs.

(** The token has fired by the time the dispatcher is entered. *)
Definition fired_now (ctx : Context) : bool :=
  match ctx_Done ctx with
  | Some (t, _) => (t =? 0)%N
  | None => false
  end.

(** What [WithTimeout] and [WithHeartbeat] store for a given duration. *)
Definition timeout_of (d : Duration) : Duration := if d <=? 0 then 5 * Second else d.
Definition interval_of (i : Duration) : Duration := if i <=? 0 then 500 * Millisecond else i.

(** ** Concrete environments and worlds, used to evaluate the definitions *)

Definition empty_world : World := mkWorld [] [].

(** Every dial connects, every codec closes cleanly, every request is
    answered at once without error. *)
Definition friendly_env : Env :=
  mkEnv (fun _ _ _ _ => None) (fun _ _ => None)
        (fun _ _ _ _ => Some (0%N, None)) (fun _ => 0%N) (fun _ => true) (fun _ _ => false).

(** The first dial connects, every later one is refused. *)
Definition one_dial_env : Env :=
  mkEnv (fun i _ _ _ => if Nat.eqb i 0 then None else Some (OtherError "connection refused"))
        (fun _ _ => None)
        (fun _ _ _ _ => Some (0%N, None)) (fun _ => 0%N) (fun _ => true) (fun _ _ => false).

(** Every dial connects, but the server never answers a request, and the
    goroutine that delegates an asynchronous call takes a microsecond. *)
Definition silent_env : Env :=
  mkEnv (fun _ _ _ _ => None) (fun _ _ => None)
        (fun _ _ _ _ => None) (fun _ => 1000%N) (fun _ => true) (fun _ _ => false).

(** No dial ever connects. *)
Definition refusing_env : Env :=
  mkEnv (fun _ _ _ _ => Some (OtherError "connection refused")) (fun _ _ => None)
        (fun _ _ _ _ => None) (fun _ => 0%N) (fun _ => true) (fun _ _ => false).

(** The client [Dial] returns for "tcp", "127.0.0.1:9000" and the given
    options in the empty world. *)
Definition dialed (E : Env) (ocs : list OptionCall) : System :=
  match Dial E "tcp" "127.0.0.1:9000" (map option_of ocs) empty_world with
  | inl s => s
  | inr (_, w) => mkSystem (mkClient None true false zero_dialOptions) w false false
  end.

(** ** How far [Reset] gets

    [Reset] dials unless the client is closed or the close of the held
    session fails with an error other than ErrShutdown. *)
Definition Reset_reaches_dial (E : Env) (c : Client) (w : World) : bool :=
  negb (closed c) &&
  match getClient c with
  | Some p =>
      match fst (rpc_Close E p w) with
      | Some e => is_ErrShutdown e
      | None => true
      end
  | None => true
  end.

(** The world in which [Reset] dials: the one left by the close of the held
    session, if there is one. *)
Definition world_at_dial (E : Env) (c : Client) (w : World) : World :=
  match getClient c with
  | Some p => snd (rpc_Close E p w)
  | None => w
  end.

(** What the network answers to the dial of this [Reset]. *)
Definition Reset_dial_answer (E : Env) (c : Client) (w : World) : option error :=
  let o := client_dialOptions c in
  dial_answer E (length (trace (world_at_dial E c w))) (network o) (address o) (timeout o).

(** Every dial connects, but the transport is saturated: the send of a
    request does not return. *)
Definition saturated_env : Env :=
  mkEnv (fun _ _ _ _ => None) (fun _ _ => None)
        (fun _ _ _ _ => None) (fun _ => 0%N) (fun _ => true) (fun _ _ => true).

(** ** The monitor in its pieces

    [monitor] locks the mutex to read [closed] and unlocks it before it
    calls [ping]; the handler runs after [ping] has returned.  Here each of
    these is a step of its own, and callers, the background connect and the
    network may act in between.  Here [monitoring] says that the goroutine
    has not returned; whether it is held is said by the phase. *)
Inductive Phase : Type :=
| Waiting                       (* in [for range ticker.C], waiting for a tick *)
| Checked                       (* read [closed] as false and unlocked: about to call [ping] *)
| Probed (err : option error)   (* [ping] returned [err]: about to call the handler *)
| Handling (rest : list Cmd)    (* inside a handler of the caller, these commands to come *)
| Stuck                         (* inside a probe or a command that does not return *)
| Panicked.                     (* called a nil handler *)

Record Monitored : Type := mkMonitored {
  sys : System;
  phase : Phase
}.

Inductive FineAction : Type :=
| FCmd (cmd : Cmd)      (* a caller invokes an exported method *)
| FConnect              (* the background connect of a non-blocking [Dial] *)
| FSever (p : nat)      (* the connection of session [p] is lost *)
| FTick                 (* the ticker delivers a tick: the monitor reads [closed] *)
| FProbe                (* the monitor calls [ping] *)
| FHandle.              (* the monitor calls the handler, or the handler its next method *)

Definition with_state (c : Client) (w : World) (s : System) : System :=
  mkSystem c w (connecting s) (monitoring s).

Definition fine_step (E : Env) (a : FineAction) (f : Monitored) : Monitored :=
  let s := sys f in
  match a with
  | FCmd cmd => mkMonitored (step E (ActCmd cmd) s) (phase f)
  | FConnect => mkMonitored (step E ActConnect s) (phase f)
  | FSever p => mkMonitored (step E (ActSever p) s) (phase f)
  | FTick =>
      match phase f with
      | Waiting =>
          if monitoring s then
            if closed (sys_client s)
            then mkMonitored (mkSystem (sys_client s) (sys_world s) (connecting s) false) Waiting
            else mkMonitored s Checked
          else f
      | _ => f
      end
  | FProbe =>
      match phase f with
      | Checked =>
          match ping E (sys_client s) (sys_world s) with
          | (Returned err, w1) => mkMonitored (with_state (sys_client s) w1 s) (Probed err)
          | (Blocked, w1) => mkMonitored (with_state (sys_client s) w1 s) Stuck
          end
      | _ => f
      end
  | FHandle =>
      match phase f with
      | Probed err =>
          match pingHandler (client_dialOptions (sys_client s)) with
          | Some defaultPingHandler =>
              let '(c2, w2) := defaultPingHandler_run E err (sys_client s) (sys_world s) in
              mkMonitored (with_state c2 w2 s) Waiting
          | Some (userPingHandler body) => mkMonitored s (Handling (body err))
          | None => mkMonitored s Panicked
          end
      | Handling [] => mkMonitored s Waiting
      | Handling (cmd :: rest) =>
          let '(r, c1, w1) := run_cmd E cmd (sys_client s) (sys_world s) in
          mkMonitored (with_state c1 w1 s) (if returned r then Handling rest else Stuck)
      | _ => f
      end
  end.

Definition fine_run (E : Env) (acts : list FineAction) (f : Monitored) : Monitored :=
  fold_left (fun f a => fine_step E a f) acts f.

(** The states a dialed client and its monitor can be in. *)
Inductive fine_reachable (E : Env) : Monitored -> Prop :=
| fine_reachable_Dial network' address' opts w s :
    Dial E network' address' opts w = inl s ->
    fine_reachable E (mkMonitored s Waiting)
| fine_reachable_step a f :
    fine_reachable E f ->
    fine_reachable E (fine_step E a f).

(** ** Predicates of the further properties *)

(** An interceptor that hands what it was given to the invoker and returns
    what the invoker returned. *)
Definition delegate_call : CallInterceptor :=
  fun ctx serviceMethod args => Invoke ctx serviceMethod args Return.

Definition delegate_go : GoInterceptor :=
  fun ctx serviceMethod args => Invoke ctx serviceMethod args Return.

(** The events are requests handed to the session [ptr] points to (and there
    are none when [ptr] is nil). *)
Definition only_requests (ptr : option nat) (evs : list Event) : Prop :=
  Forall (fun e => exists p m a, ptr = Some p /\ e = EvGo p m a) evs.

(** The heartbeat fields are set together: no method, no interval and no
    handler, or a method with a positive interval and a handler. *)
Definition heartbeat_ok (o : dialOptions) : Prop :=
  if String.eqb (pingServiceMethod o) ""
  then pingInterval o = 0 /\ pingHandler o = None
  else 0 < pingInterval o /\ pingHandler o <> None.

(** While the client is open and the close permission is granted, the
    session it refers to is not closing. *)
Definition session_in_use_open (c : Client) (w : World) : Prop :=
  closed c = false -> closeCanBeCalled c = true ->
  forall p, client c = Some p -> session_closing w p = false.

(** Of the sessions at addresses from [n0] on, the client refers to one at
    most, and every other one is closing. *)
Definition at_most_one_open (n0 : nat) (c : Client) (w : World) : Prop :=
  (n0 <= length (sessions w))%nat /\
  (forall p, client c = Some p -> (n0 <= p < length (sessions w))%nat) /\
  (forall p, (n0 <= p < length (sessions w))%nat -> client c <> Some p ->
     session_closing w p = true).

(** Every dial connects, but the codec of a session fails to close. *)
Definition broken_close_env : Env :=
  mkEnv (fun _ _ _ _ => None) (fun _ _ => Some (OtherError "broken pipe"))
        (fun _ _ _ _ => Some (0%N, None)) (fun _ => 0%N) (fun _ => true) (fun _ _ => false).

(** The last value of one kind in an option list, values that are nil left
    aside. *)
Fixpoint last_some {A : Type} (f : OptionCall -> option A) (ocs : list OptionCall) : option A :=
  match ocs with
  | [] => None
  | oc :: rest =>
      match last_some f rest with
      | Some x => Some x
      | None => f oc
      end
  end.

Definition logger_of (oc : OptionCall) : option Logger :=
  match oc with CallWithLogger l => l | _ => None end.

Definition call_interceptor_of (oc : OptionCall) : option CallInterceptor :=
  match oc with CallWithCallInterceptor i => i | _ => None end.

Definition go_interceptor_of (oc : OptionCall) : option GoInterceptor :=
  match oc with CallWithGoInterceptor i => i | _ => None end.

Definition is_WithBlock (oc : OptionCall) : bool :=
  match oc with CallWithBlock => true | _ => false end.

(** * Properties *)

(** ** Construction and its defaults *)

Section Options.

Lemma apply_options_cons opt opts o :
  apply_options (opt :: opts) o = apply_options opts (opt o).
Proof. reflexivity. Qed.

Lemma apply_options_app opts1 opts2 o :
  apply_options (opts1 ++ opts2) o = apply_options opts2 (apply_options opts1 o).
Proof. unfold apply_options. apply fold_left_app. Qed.

Lemma timeout_apply_options ocs o :
  timeout (apply_options (map option_of ocs) o) =
  match last_timeout ocs with Some d => timeout_of d | None => timeout o end.
Proof.
  revert o. induction ocs as [|oc rest IH]; intros o; [reflexivity|].
  cbn [map last_timeout]. rewrite apply_options_cons, IH.
  destruct (last_timeout rest); [reflexivity|].
  destruct oc as [d| |[l|]|m i h|[i|]|[i|]]; cbn; try reflexivity.
  unfold WithHeartbeat. destruct (String.eqb m ""); reflexivity.
Qed.

Lemma pingInterval_apply_options ocs o :
  pingInterval (apply_options (map option_of ocs) o) =
  match last_heartbeat ocs with Some i => interval_of i | None => pingInterval o end.
Proof.
  revert o. induction ocs as [|oc rest IH]; intros o; [reflexivity|].
  cbn [map last_heartbeat]. rewrite apply_options_cons, IH.
  destruct (last_heartbeat rest); [reflexivity|].
  destruct oc as [d| |[l|]|m i h|[i|]|[i|]]; cbn; try reflexivity.
  unfold WithHeartbeat. destruct (String.eqb m ""); reflexivity.
Qed.

Lemma Dial_options_timeout n a opts :
  timeout (Dial_options n a opts) = timeout (apply_options opts zero_dialOptions).
Proof.
  unfold Dial_options. rewrite apply_options_app. cbn.
  destruct (logger _); reflexivity.
Qed.

Lemma Dial_options_pingInterval n a opts :
  pingInterval (Dial_options n a opts) = pingInterval (apply_options opts zero_dialOptions).
Proof.
  unfold Dial_options. rewrite apply_options_app. cbn.
  destruct (logger _); reflexivity.
Qed.

(** [Dial] never leaves the logger nil. *)
Lemma Dial_logger n a opts : logger (Dial_options n a opts) <> None.
Proof.
  unfold Dial_options.
  destruct (logger (apply_options _ _)) eqn:H; [congruence|]. cbn. congruence.
Qed.

End Options.

(** ** The world only grows *)

Section WorldOrder.

Lemma world_le_refl w : world_le w w.
Proof. split; auto. Qed.

Lemma world_le_trans w1 w2 w3 : world_le w1 w2 -> world_le w2 w3 -> world_le w1 w3.
Proof.
  intros [S1 C1 T1] [S2 C2 T2]. split; [lia | auto | auto].
Qed.

Lemma emit_le e w : world_le w (emit e w).
Proof.
  split; cbn; [lia | auto |]. intros e' H. apply in_or_app. auto.
Qed.

Lemma session_closing_insert w p q s tr :
  sessions w !! p = Some s ->
  session_closing w q = true ->
  session_closing (mkWorld (<[p := mkRpcClient true (shutdown s)]> (sessions w)) tr) q = true.
Proof.
  unfold session_closing. cbn. intros Hp Hq.
  destruct (decide (p = q)) as [->|Hne].
  - rewrite list_lookup_insert_eq; [reflexivity|]. eapply lookup_lt_Some; eauto.
  - rewrite list_lookup_insert_ne by assumption. exact Hq.
Qed.

Lemma rpc_Close_le E p w : world_le w (snd (rpc_Close E p w)).
Proof.
  unfold rpc_Close. destruct (sessions w !! p) as [s|] eqn:Hp; [|apply emit_le].
  destruct (closing s); [apply emit_le|].
  split; cbn.
  - rewrite length_insert. lia.
  - intros q. now apply session_closing_insert.
  - intros e H. apply in_or_app. auto.
Qed.

(** After [Close] on a session of the heap, that session is closing and the
    attempt is on the trace, whatever [Close] returned. *)
Lemma rpc_Close_closing E p w :
  (p < length (sessions w))%nat ->
  session_closing (snd (rpc_Close E p w)) p = true /\
  close_attempted (snd (rpc_Close E p w)) p.
Proof.
  intros Hlt. destruct (lookup_lt_is_Some_2 _ _ Hlt) as [s Hs].
  unfold rpc_Close, close_attempted, session_closing. rewrite Hs.
  destruct (closing s) eqn:Hc; cbn.
  - rewrite Hs. split; [exact Hc|]. apply in_or_app. right. now left.
  - rewrite list_lookup_insert_eq by assumption. split; [reflexivity|].
    apply in_or_app. right. now left.
Qed.

(** Whether Go returns or not, the request is all it adds to the world. *)
Lemma rpc_Go_world E p m a w : snd (rpc_Go E p m a w) = emit (EvGo p m a) w.
Proof.
  unfold rpc_Go. destruct (sessions w !! p) as [s|]; [|reflexivity].
  destruct (closing s || shutdown s); [reflexivity|].
  destruct (round_trip _ _ _ _ _); [reflexivity|].
  destruct (send_blocks _ _ _); reflexivity.
Qed.

Lemma rpc_Go_sessions E p m a w : sessions (snd (rpc_Go E p m a w)) = sessions w.
Proof. now rewrite rpc_Go_world. Qed.

Lemma rpc_Go_trace E p m a w : trace (snd (rpc_Go E p m a w)) = trace w ++ [EvGo p m a].
Proof. now rewrite rpc_Go_world. Qed.

Lemma rpc_Go_le E p m a w : world_le w (snd (rpc_Go E p m a w)).
Proof.
  split.
  - rewrite rpc_Go_sessions. lia.
  - unfold session_closing. rewrite rpc_Go_sessions. auto.
  - rewrite rpc_Go_trace. intros e H. apply in_or_app. auto.
Qed.

Lemma rpc_NewClient_le w : world_le w (snd (rpc_NewClient w)).
Proof.
  split; cbn.
  - rewrite length_app. lia.
  - unfold session_closing. cbn. intros p H.
    destruct (sessions w !! p) as [s|] eqn:Hp; [|discriminate].
    rewrite (lookup_app_l_Some _ _ _ _ Hp). exact H.
  - intros e H. apply in_or_app. auto.
Qed.

Lemma sever_le p w : world_le w (sever p w).
Proof.
  unfold sever. destruct (sessions w !! p) as [s|] eqn:Hp; [|apply world_le_refl].
  split; cbn.
  - rewrite length_insert. lia.
  - unfold session_closing. cbn. intros q Hq.
    destruct (decide (p = q)) as [->|Hne].
    + rewrite list_lookup_insert_eq by (eapply lookup_lt_Some; eauto).
      cbn. now rewrite Hp in Hq.
    + now rewrite list_lookup_insert_ne.
  - auto.
Qed.

End WorldOrder.

(** ** The dispatcher leaves the sessions alone *)

Section Dispatch.

Variable E : Env.

Lemma extends_refl w : extends w w.
Proof. split; [reflexivity|]. exists []. now rewrite app_nil_r. Qed.

Lemma extends_trans w1 w2 w3 : extends w1 w2 -> extends w2 w3 -> extends w1 w3.
Proof.
  intros [S1 [e1 T1]] [S2 [e2 T2]]. split; [congruence|].
  exists (e1 ++ e2). rewrite T2, T1. now rewrite app_assoc.
Qed.

Lemma extends_le w w' : extends w w' -> world_le w w'.
Proof.
  intros [S [evs T]]. split.
  - rewrite S. lia.
  - unfold session_closing. now rewrite S.
  - intros e H. rewrite T. apply in_or_app. auto.
Qed.

Lemma rpc_Go_extends p m a w : extends w (snd (rpc_Go E p m a w)).
Proof.
  split; [apply rpc_Go_sessions|]. eexists. apply rpc_Go_trace.
Qed.

Lemma callContext_extends c ctx m a w : extends w (snd (callContext E c ctx m a w)).
Proof.
  unfold callContext. destruct (getClient c) as [p|]; [|apply extends_refl].
  pose proof (rpc_Go_extends p m a w) as H.
  destruct (is_Background ctx), (rpc_Go E p m a w); exact H.
Qed.

(** With a session [goContext] hands the request to it, whoever wins the
    select afterwards; without one it leaves the world alone. *)
Lemma goContext_world c ctx m a w :
  snd (goContext E c ctx m a w) =
  match getClient c with Some p => snd (rpc_Go E p m a w) | None => w end.
Proof.
  unfold goContext. destruct (getClient c) as [p|]; [|reflexivity].
  destruct (is_Background ctx); [reflexivity|].
  destruct (rpc_Go E p m a w) as [call w1]. cbn [snd].
  destruct (ctx_Done ctx) as [[t cerr]|]; [|reflexivity].
  destruct call as [call|]; [|reflexivity].
  destruct (_ <? _)%N; [reflexivity|].
  destruct (_ <? _)%N; [reflexivity|].
  destruct (select_first _ _); reflexivity.
Qed.

Lemma goContext_extends c ctx m a w : extends w (snd (goContext E c ctx m a w)).
Proof.
  rewrite goContext_world. destruct (getClient c) as [p|]; [|apply extends_refl].
  apply rpc_Go_extends.
Qed.

Lemma intercept_call_extends body invoker :
  (forall ctx m a w, extends w (snd (invoker ctx m a w))) ->
  forall w, extends w (snd (intercept_call body invoker w)).
Proof.
  intros Hinv. induction body as [r|ctx m a k IH]; intros w; cbn.
  - apply extends_refl.
  - pose proof (Hinv ctx m a w) as H.
    destruct (invoker ctx m a w) as [[err|] w1]; cbn in H; [|exact H].
    eapply extends_trans; [exact H | apply IH].
Qed.

Lemma intercept_go_extends body invoker :
  (forall ctx m a w, extends w (snd (invoker ctx m a w))) ->
  forall w, extends w (snd (intercept_go body invoker w)).
Proof.
  intros Hinv. induction body as [r|ctx m a k IH]; intros w; cbn.
  - apply extends_refl.
  - pose proof (Hinv ctx m a w) as H.
    destruct (invoker ctx m a w) as [[call|] w1]; cbn in H; [|exact H].
    eapply extends_trans; [exact H | apply IH].
Qed.

Lemma CallContext_extends c ctx m a w : extends w (snd (CallContext E c ctx m a w)).
Proof.
  unfold CallContext. destruct (callInterceptor _) as [i|].
  - apply intercept_call_extends. intros. apply callContext_extends.
  - apply callContext_extends.
Qed.

Lemma GoContext_extends c ctx m a w : extends w (snd (GoContext E c ctx m a w)).
Proof.
  unfold GoContext. destruct (goInterceptor _) as [i|].
  - apply intercept_go_extends. intros. apply goContext_extends.
  - apply goContext_extends.
Qed.

End Dispatch.

(** ** The lifecycle invariant *)

Section Lifecycle.

Variable E : Env.

Lemma lifecycle_inv_mono c w w' : lifecycle_inv c w -> world_le w w' -> lifecycle_inv c w'.
Proof.
  intros [V P C] [S L T]. split.
  - intros p Hp. specialize (V p Hp). lia.
  - intros Hf. destruct (P Hf) as (p & Hp & Ha & Hc).
    exists p. repeat split; auto. apply T, Ha.
  - intros Hcl p Hp. apply L. eauto.
Qed.

Lemma Errorf_extends c f e w : extends w (Errorf c f e w).
Proof.
  unfold Errorf. destruct (logger _); [|apply extends_refl].
  split; [reflexivity|]. now eexists.
Qed.

(** A closed client is not reset. *)
Lemma Reset_closed c w : closed c = true -> Reset E c w = (Some ErrShutdown, c, w).
Proof. intros H. unfold Reset. now rewrite H. Qed.

Lemma Reset_dial_fields c w err c' w' :
  Reset_dial E c w = (err, c', w') ->
  closed c' = closed c /\ client_dialOptions c' = client_dialOptions c.
Proof.
  unfold Reset_dial. destruct (dial_answer _ _ _ _ _); intros [= <- <- <-]; auto.
Qed.

Lemma Reset_fields c w err c' w' :
  Reset E c w = (err, c', w') ->
  closed c' = closed c /\ client_dialOptions c' = client_dialOptions c.
Proof.
  unfold Reset. destruct (closed c) eqn:Hc; [intros [= <- <- <-]; auto|].
  assert (Hdial : forall c0, closed c0 = false ->
            client_dialOptions c0 = client_dialOptions c ->
            forall w0, Reset_dial E c0 w0 = (err, c', w') ->
            closed c' = false /\ client_dialOptions c' = client_dialOptions c).
  { intros c0 H0 Ho w0 H. apply Reset_dial_fields in H as [H1 H2]. split; congruence. }
  destruct (getClient c) as [p|]; [|now apply Hdial].
  destruct (rpc_Close E p w) as [[e|] w1].
  - destruct (is_ErrShutdown e); [now apply Hdial|].
    intros [= <- <- <-]; auto.
  - now apply Hdial.
Qed.

Lemma Reset_dial_inv c w err c' w' :
  lifecycle_inv c w -> closed c = false ->
  Reset_dial E c w = (err, c', w') ->
  lifecycle_inv c' w' /\ world_le w w'.
Proof.
  intros Hinv Hcl. unfold Reset_dial.
  destruct (dial_answer _ _ _ _ _) as [e|].
  - intros [= <- <- <-]. split; [|apply emit_le].
    eapply lifecycle_inv_mono; [exact Hinv | apply emit_le].
  - intros [= <- <- <-]. split.
    + split; cbn.
      * intros p [= <-]. unfold emit. cbn. rewrite length_app. cbn. lia.
      * discriminate.
      * rewrite Hcl. discriminate.
    + eapply world_le_trans; [apply emit_le|].
      apply (rpc_NewClient_le (emit _ w)).
Qed.

Lemma Reset_inv c w err c' w' :
  lifecycle_inv c w ->
  Reset E c w = (err, c', w') ->
  lifecycle_inv c' w' /\ world_le w w'.
Proof.
  intros Hinv. unfold Reset.
  destruct (closed c) eqn:Hcl.
  { intros [= <- <- <-]. split; [exact Hinv | apply world_le_refl]. }
  destruct (getClient c) as [p|] eqn:Hp; [|now apply Reset_dial_inv].
  unfold getClient in Hp.
  pose proof (inv_valid _ _ Hinv p Hp) as Hlt.
  destruct (rpc_Close_closing E p w Hlt) as [Hclosing Hatt].
  pose proof (rpc_Close_le E p w) as Hle.
  destruct (rpc_Close E p w) as [cerr w1]. cbn in Hclosing, Hatt, Hle.
  assert (Hinv1 : lifecycle_inv (set_closeCanBeCalled false c) w1).
  { split; cbn.
    - intros q Hq. pose proof (inv_valid _ _ Hinv q Hq). destruct Hle. lia.
    - intros _. exists p. auto.
    - rewrite Hcl. discriminate. }
  assert (Hdial : forall r, Reset_dial E (set_closeCanBeCalled false c) w1 = r ->
                 r = (err, c', w') -> lifecycle_inv c' w' /\ world_le w w').
  { intros r Hr ->. destruct (Reset_dial_inv _ _ _ _ _ Hinv1 Hcl Hr) as [I L].
    split; [exact I | eapply world_le_trans; eauto]. }
  destruct cerr as [e|].
  - destruct (is_ErrShutdown e).
    + intros H. eapply Hdial; eauto.
    + intros [= <- <- <-]. auto.
  - intros H. eapply Hdial; eauto.
Qed.

Lemma Close_fields c w err c' w' :
  Close E c w = (err, c', w') ->
  closed c' = true /\ client c' = client c /\
  client_dialOptions c' = client_dialOptions c /\
  length (sessions w') = length (sessions w).
Proof.
  unfold Close. cbn. destruct (client c) as [p|] eqn:Hp; [|intros [= <- <- <-]; auto].
  destruct (closeCanBeCalled c); cbn.
  - unfold rpc_Close. destruct (sessions w !! p) as [s|]; [|intros [= <- <- <-]; auto].
    destruct (closing s); intros [= <- <- <-]; cbn; rewrite ?length_insert; auto.
  - intros [= <- <- <-]; auto.
Qed.

Lemma Close_inv c w err c' w' :
  lifecycle_inv c w ->
  Close E c w = (err, c', w') ->
  lifecycle_inv c' w' /\ world_le w w'.
Proof.
  intros Hinv. unfold Close. cbn.
  destruct (client c) as [p|] eqn:Hp.
  2:{ intros [= <- <- <-]. split; [|apply world_le_refl].
      split; unfold client_valid; cbn; rewrite ?Hp.
      - intros q Hq. discriminate.
      - intros Hf. destruct (inv_permission _ _ Hinv Hf) as (q & Hq & _). congruence.
      - intros _ q Hq. discriminate. }
  destruct (closeCanBeCalled c) eqn:Hf; cbn.
  - pose proof (inv_valid _ _ Hinv p Hp) as Hlt.
    destruct (rpc_Close_closing E p w Hlt) as [Hclosing Hatt].
    pose proof (rpc_Close_le E p w) as Hle.
    destruct (rpc_Close E p w) as [cerr w1]. cbn in Hclosing, Hatt, Hle.
    intros [= <- <- <-]. split; [|exact Hle].
    split; unfold client_valid; cbn; rewrite ?Hp, ?Hf.
    + intros q [= <-]. destruct Hle. lia.
    + discriminate.
    + intros _ q [= <-]. exact Hclosing.
  - intros [= <- <- <-]. split; [|apply world_le_refl].
    destruct (inv_permission _ _ Hinv Hf) as (q & Hq & Ha & Hc).
    split; unfold client_valid; cbn; rewrite ?Hp.
    + intros r [= <-]. apply (inv_valid _ _ Hinv). exact Hp.
    + discriminate.
    + intros _ r [= <-]. congruence.
Qed.

End Lifecycle.

(** ** Every step keeps the invariant *)

Section Steps.

Variable E : Env.

Lemma run_cmd_inv cmd c w r c' w' :
  lifecycle_inv c w ->
  run_cmd E cmd c w = (r, c', w') ->
  lifecycle_inv c' w' /\ world_le w w'.
Proof.
  intros Hinv. destruct cmd as [| |m a|ctx m a|m a|ctx m a]; cbn.
  - destruct (Reset E c w) as [[err c1] w1] eqn:H. intros [= <- <- <-].
    eapply Reset_inv; eauto.
  - destruct (Close E c w) as [[err c1] w1] eqn:H. intros [= <- <- <-].
    eapply Close_inv; eauto.
  - pose proof (CallContext_extends E c Background m a w) as H. unfold Call.
    destruct (CallContext E c Background m a w) as [res w1]. intros [= <- <- <-].
    apply extends_le in H. split; [eapply lifecycle_inv_mono; eauto | exact H].
  - pose proof (CallContext_extends E c ctx m a w) as H.
    destruct (CallContext E c ctx m a w) as [res w1]. intros [= <- <- <-].
    apply extends_le in H. split; [eapply lifecycle_inv_mono; eauto | exact H].
  - pose proof (GoContext_extends E c Background m a w) as H. unfold Go.
    destruct (GoContext E c Background m a w) as [res w1]. intros [= <- <- <-].
    apply extends_le in H. split; [eapply lifecycle_inv_mono; eauto | exact H].
  - pose proof (GoContext_extends E c ctx m a w) as H.
    destruct (GoContext E c ctx m a w) as [res w1]. intros [= <- <- <-].
    apply extends_le in H. split; [eapply lifecycle_inv_mono; eauto | exact H].
Qed.

Lemma run_cmds_inv cmds : forall c w c' w',
  lifecycle_inv c w ->
  run_cmds E cmds c w = (c', w') ->
  lifecycle_inv c' w' /\ world_le w w'.
Proof.
  induction cmds as [|cmd rest IH]; intros c w c' w' Hinv; cbn.
  - intros [= <- <-]. split; [exact Hinv | apply world_le_refl].
  - destruct (run_cmd E cmd c w) as [[r c1] w1] eqn:H1.
    destruct (run_cmd_inv _ _ _ _ _ _ Hinv H1) as [I1 L1].
    destruct (returned r); [|intros [= <- <-]; auto].
    intros H2. destruct (IH _ _ _ _ I1 H2) as [I2 L2].
    split; [exact I2 | eapply world_le_trans; eauto].
Qed.

Lemma defaultPingHandler_run_inv result c w c' w' :
  lifecycle_inv c w ->
  defaultPingHandler_run E result c w = (c', w') ->
  lifecycle_inv c' w' /\ world_le w w'.
Proof.
  intros Hinv. unfold defaultPingHandler_run.
  destruct result as [e|]; [|intros [= <- <-]; split; [exact Hinv | apply world_le_refl]].
  destruct (is_ErrShutdown e); cbn.
  - destruct (Reset E c w) as [[[err|] c1] w1] eqn:H; intros [= <- <-];
      destruct (Reset_inv E _ _ _ _ _ Hinv H) as [I L]; [|auto].
    pose proof (extends_le _ _ (Errorf_extends c1 "[error][rpcx]: Reset: %s" err w1)) as L'.
    split; [eapply lifecycle_inv_mono; eauto | eapply world_le_trans; eauto].
  - intros [= <- <-].
    pose proof (extends_le _ _ (Errorf_extends c "[error][rpcx]: ping: %s" e w)) as L'.
    split; [eapply lifecycle_inv_mono; eauto | exact L'].
Qed.

Lemma run_pingHandler_inv h result c w c' w' :
  lifecycle_inv c w ->
  run_pingHandler E h result c w = (c', w') ->
  lifecycle_inv c' w' /\ world_le w w'.
Proof.
  destruct h as [|body]; cbn.
  - apply defaultPingHandler_run_inv.
  - apply run_cmds_inv.
Qed.

Lemma ping_extends c w : extends w (snd (ping E c w)).
Proof. apply callContext_extends. Qed.

Lemma step_inv a s :
  lifecycle_inv (sys_client s) (sys_world s) ->
  lifecycle_inv (sys_client (step E a s)) (sys_world (step E a s)).
Proof.
  intros Hinv. destruct a as [cmd| | |p]; cbn.
  - destruct (run_cmd E cmd _ _) as [[r c1] w1] eqn:H. cbn.
    eapply run_cmd_inv; eauto.
  - destruct (connecting s); [|exact Hinv].
    destruct (Reset E _ _) as [[[err|] c1] w1] eqn:H; cbn;
      destruct (Reset_inv E _ _ _ _ _ Hinv H) as [I L]; [|exact I].
    eapply lifecycle_inv_mono; [exact I|]. apply extends_le, Errorf_extends.
  - destruct (monitoring s); [|exact Hinv].
    unfold monitor_tick. destruct (closed _); [exact Hinv|].
    pose proof (extends_le _ _ (ping_extends (sys_client s) (sys_world s))) as L.
    destruct (ping E _ _) as [[err|] w1]; cbn in L |- *.
    + destruct (pingHandler _) as [h|]; cbn.
      * destruct (run_pingHandler E h err _ w1) as [c2 w2] eqn:H.
        assert (I2 : lifecycle_inv c2 w2).
        { eapply run_pingHandler_inv; [|exact H]. eapply lifecycle_inv_mono; eauto. }
        destruct (pingHandler_returns _ _ _ _ _); exact I2.
      * eapply lifecycle_inv_mono; eauto.
    + eapply lifecycle_inv_mono; eauto.
  - eapply lifecycle_inv_mono; [exact Hinv | apply sever_le].
Qed.

Lemma Dial_inv n a opts w s :
  Dial E n a opts w = inl s -> lifecycle_inv (sys_client s) (sys_world s).
Proof.
  unfold Dial.
  assert (H0 : lifecycle_inv (mkClient None true false (Dial_options n a opts)) w).
  { split; unfold client_valid; cbn; discriminate. }
  destruct (block _).
  - destruct (Reset E _ w) as [[[err|] c1] w1] eqn:H; [discriminate|].
    intros [= <-]. cbn. eapply Reset_inv; eauto.
  - intros [= <-]. exact H0.
Qed.

(** The invariant holds in every state a dialed client can reach. *)
Lemma reachable_inv s : reachable E s -> lifecycle_inv (sys_client s) (sys_world s).
Proof.
  induction 1 as [n a opts w s H|a s _ IH].
  - eapply Dial_inv; eauto.
  - now apply step_inv.
Qed.

Lemma reachable_run acts : forall s, reachable E s -> reachable E (run E acts s).
Proof.
  induction acts as [|a rest IH]; intros s H; [exact H|].
  apply IH. now constructor.
Qed.

End Steps.

(** ** Once closed *)

Section Closed.

Variable E : Env.

(** What no step changes once the client is closed: the flag, the pointer,
    the options and the number of sessions ever created. *)
Lemma run_cmd_closed cmd c w r c' w' :
  closed c = true ->
  run_cmd E cmd c w = (r, c', w') ->
  closed c' = true /\ client c' = client c /\
  client_dialOptions c' = client_dialOptions c /\
  length (sessions w') = length (sessions w).
Proof.
  intros Hcl. destruct cmd as [| |m a|ctx m a|m a|ctx m a]; cbn.
  - rewrite (Reset_closed E c w Hcl). intros [= <- <- <-]. auto.
  - destruct (Close E c w) as [[err c1] w1] eqn:H. intros [= <- <- <-].
    eapply Close_fields; eauto.
  - pose proof (CallContext_extends E c Background m a w) as [H _]. unfold Call.
    destruct (CallContext E c Background m a w). intros [= <- <- <-].
    cbn in H. rewrite H. auto.
  - pose proof (CallContext_extends E c ctx m a w) as [H _].
    destruct (CallContext E c ctx m a w). intros [= <- <- <-].
    cbn in H. rewrite H. auto.
  - pose proof (GoContext_extends E c Background m a w) as [H _]. unfold Go.
    destruct (GoContext E c Background m a w). intros [= <- <- <-].
    cbn in H. rewrite H. auto.
  - pose proof (GoContext_extends E c ctx m a w) as [H _].
    destruct (GoContext E c ctx m a w). intros [= <- <- <-].
    cbn in H. rewrite H. auto.
Qed.

Lemma run_cmds_closed cmds : forall c w c' w',
  closed c = true ->
  run_cmds E cmds c w = (c', w') ->
  closed c' = true /\ client c' = client c /\
  client_dialOptions c' = client_dialOptions c /\
  length (sessions w') = length (sessions w).
Proof.
  induction cmds as [|cmd rest IH]; intros c w c' w' Hcl; cbn.
  - intros [= <- <-]. auto.
  - destruct (run_cmd E cmd c w) as [[r c1] w1] eqn:H1.
    destruct (run_cmd_closed _ _ _ _ _ _ Hcl H1) as (A1 & B1 & C1 & D1).
    destruct (returned r); [|intros [= <- <-]; auto].
    intros H2. destruct (IH _ _ _ _ A1 H2) as (A2 & B2 & C2 & D2).
    repeat split; congruence.
Qed.

(** A tick that finds the client closed ends the monitor and does nothing
    else. *)
Lemma monitor_tick_closed c w : closed c = true -> monitor_tick E c w = TickReturn.
Proof. intros H. unfold monitor_tick. now rewrite H. Qed.

(** The goroutine of [monitor] returns at the first tick that finds the
    client closed. *)
Lemma monitor_closed n c w : closed c = true -> monitor E (S n) c w = (false, c, w).
Proof. intros H. cbn. now rewrite (monitor_tick_closed _ _ H). Qed.

Lemma sever_length p w : length (sessions (sever p w)) = length (sessions w).
Proof.
  unfold sever. destruct (sessions w !! p); [|reflexivity]. cbn. apply length_insert.
Qed.

Lemma step_closed a s :
  closed (sys_client s) = true ->
  closed (sys_client (step E a s)) = true /\
  client (sys_client (step E a s)) = client (sys_client s) /\
  client_dialOptions (sys_client (step E a s)) = client_dialOptions (sys_client s) /\
  length (sessions (sys_world (step E a s))) = length (sessions (sys_world s)).
Proof.
  intros Hcl. destruct a as [cmd| | |p]; cbn.
  - destruct (run_cmd E cmd _ _) as [[r c1] w1] eqn:H. cbn.
    eapply run_cmd_closed; eauto.
  - destruct (connecting s); [|auto].
    rewrite (Reset_closed E _ _ Hcl). cbn.
    destruct (Errorf_extends (sys_client s) "[error][rpcx]: Reset: %s" ErrShutdown
                (sys_world s)) as [-> _]. auto.
  - destruct (monitoring s); [|auto].
    rewrite (monitor_tick_closed _ _ Hcl). cbn. auto.
  - rewrite sever_length. auto.
Qed.

Lemma run_closed acts : forall s,
  closed (sys_client s) = true ->
  closed (sys_client (run E acts s)) = true /\
  client (sys_client (run E acts s)) = client (sys_client s) /\
  client_dialOptions (sys_client (run E acts s)) = client_dialOptions (sys_client s) /\
  length (sessions (sys_world (run E acts s))) = length (sessions (sys_world s)).
Proof.
  induction acts as [|a rest IH]; intros s Hcl; [cbn; auto|].
  cbn. destruct (step_closed a s Hcl) as (A1 & B1 & C1 & D1).
  destruct (IH _ A1) as (A2 & B2 & C2 & D2).
  unfold run in *. repeat split; congruence.
Qed.

Lemma step_Close_closed s : closed (sys_client (step E (ActCmd CmdClose) s)) = true.
Proof.
  cbn. destruct (Close E _ _) as [[err c1] w1] eqn:H. cbn.
  eapply Close_fields; eauto.
Qed.

(** A call through a session that is closing is completed at once with
    ErrShutdown; the dispatcher returns it unless the token had fired
    already, in which case the select may take either branch. *)
Lemma callContext_closing c ctx m a w p :
  getClient c = Some p ->
  session_closing w p = true ->
  fired_now ctx = false ->
  fst (callContext E c ctx m a w) = Returned (Some ErrShutdown).
Proof.
  intros Hp Hcl Hf. unfold callContext. rewrite Hp.
  unfold session_closing in Hcl. unfold rpc_Go.
  destruct (sessions w !! p) as [s|]; [|discriminate]. rewrite Hcl. cbn.
  destruct (is_Background ctx); [reflexivity|]. cbn.
  unfold select_call, fired_now in *. cbn.
  destruct (ctx_Done ctx) as [[t cerr]|]; [|reflexivity].
  destruct t as [|t']; [discriminate|]. reflexivity.
Qed.

Lemma callContext_nil c ctx m a w :
  getClient c = None ->
  callContext E c ctx m a w = (Returned (Some ErrShutdown), w).
Proof. intros H. unfold callContext. now rewrite H. Qed.

(** In a state reached after [Close], whatever session the client still
    refers to is closing, so the dispatcher answers ErrShutdown. *)
Lemma callContext_after_close c ctx m a w :
  lifecycle_inv c w -> closed c = true ->
  fired_now ctx = false ->
  fst (callContext E c ctx m a w) = Returned (Some ErrShutdown).
Proof.
  intros Hinv Hcl Hf. destruct (getClient c) as [p|] eqn:Hp.
  - eapply callContext_closing; eauto. eapply inv_closed; eauto.
  - now rewrite callContext_nil.
Qed.

Lemma goContext_after_close c m a w :
  lifecycle_inv c w -> closed c = true ->
  fst (goContext E c Background m a w) = Some (completed_call m a ErrShutdown).
Proof.
  intros Hinv Hcl. unfold goContext. destruct (getClient c) as [p|] eqn:Hp; [|reflexivity].
  pose proof (inv_closed _ _ Hinv Hcl p Hp) as Hclosing.
  unfold session_closing in Hclosing. cbn. unfold rpc_Go.
  destruct (sessions w !! p) as [r|]; [|discriminate]. now rewrite Hclosing.
Qed.

(** A monitor that has returned stays gone. *)
Lemma monitoring_step a s : monitoring s = false -> monitoring (step E a s) = false.
Proof.
  intros H. destruct a as [cmd| | |p]; cbn.
  - now destruct (run_cmd E cmd _ _) as [[r c1] w1].
  - destruct (connecting s); [|exact H].
    now destruct (Reset E _ _) as [[[err|] c1] w1].
  - now rewrite H.
  - exact H.
Qed.

Lemma monitoring_run acts : forall s, monitoring s = false -> monitoring (run E acts s) = false.
Proof.
  induction acts as [|a rest IH]; intros s H; [exact H|].
  apply IH. now apply monitoring_step.
Qed.

End Closed.

(** ** Concrete runs *)

Lemma dialed_reachable E ocs s :
  Dial E "tcp" "127.0.0.1:9000" (map option_of ocs) empty_world = inl s ->
  reachable E (dialed E ocs).
Proof.
  intros H. unfold dialed. rewrite H. eapply reachable_Dial. exact H.
Qed.

Lemma dialed_friendly_reachable : reachable friendly_env (dialed friendly_env [CallWithBlock]).
Proof. eapply dialed_reachable. reflexivity. Qed.

Lemma dialed_one_dial_reachable : reachable one_dial_env (dialed one_dial_env [CallWithBlock]).
Proof. eapply dialed_reachable. reflexivity. Qed.

(** * The properties of the specification *)

(** ** C1 *)

(** C1.  Once [Close] has returned, whatever happens next (calls, resets,
    further closes, heartbeat ticks, the background connect, lost
    connections): [closed] stays true; no session is created, the pointer
    and the number of sessions stay what they were and [Reset] fails with
    ErrShutdown leaving everything untouched; and every call returns
    ErrShutdown, both from the dispatcher [callContext] under any token that
    has not fired already and from [Call] when no interceptor stands in
    front of the dispatcher; an asynchronous call is returned completed with
    ErrShutdown. *)
Theorem C1_closed_is_final (E : Env) (s : System) (acts : list Action) :
  reachable E s ->
  let s1 := step E (ActCmd CmdClose) s in
  let s2 := run E acts s1 in
  closed (sys_client s2) = true /\
  client (sys_client s2) = client (sys_client s1) /\
  length (sessions (sys_world s2)) = length (sessions (sys_world s1)) /\
  Reset E (sys_client s2) (sys_world s2) = (Some ErrShutdown, sys_client s2, sys_world s2) /\
  (forall ctx m a, fired_now ctx = false ->
     fst (callContext E (sys_client s2) ctx m a (sys_world s2)) = Returned (Some ErrShutdown)) /\
  (callInterceptor (client_dialOptions (sys_client s2)) = None ->
   forall m a, fst (Call E (sys_client s2) m a (sys_world s2)) = Returned (Some ErrShutdown)) /\
  (forall m a, fst (goContext E (sys_client s2) Background m a (sys_world s2)) =
               Some (completed_call m a ErrShutdown)).
Proof.
  intros Hreach s1 s2.
  pose proof (step_Close_closed E s) as Hcl1. fold s1 in Hcl1.
  destruct (run_closed E acts s1 Hcl1) as (Hcl2 & Hptr & _ & Hlen). fold s2 in Hcl2, Hptr, Hlen.
  assert (Hinv : lifecycle_inv (sys_client s2) (sys_world s2)).
  { apply reachable_inv with (E := E). apply reachable_run. now constructor. }
  repeat split; try assumption.
  - now apply Reset_closed.
  - intros ctx m a Hf. now apply callContext_after_close.
  - intros Hnone m a. unfold Call, CallContext. rewrite Hnone.
    now apply callContext_after_close.
  - intros m a. now apply goContext_after_close.
Qed.

(** A dialed client is closed, then reset, called and ticked. *)
Lemma C1_closed_is_final_witness :
  let E := friendly_env in
  let s2 := run E [ActCmd CmdReset; ActCmd (CmdCall "Arith.Add" (Data "1,2")); ActTick]
              (step E (ActCmd CmdClose) (dialed E [CallWithBlock])) in
  reachable E (dialed E [CallWithBlock]) /\
  closed (sys_client s2) = true /\
  Reset E (sys_client s2) (sys_world s2) = (Some ErrShutdown, sys_client s2, sys_world s2) /\
  fst (Call E (sys_client s2) "Arith.Add" (Data "1,2") (sys_world s2)) = Returned (Some ErrShutdown).
Proof.
  intros E s2.
  pose proof (C1_closed_is_final E (dialed E [CallWithBlock])
                [ActCmd CmdReset; ActCmd (CmdCall "Arith.Add" (Data "1,2")); ActTick]
                dialed_friendly_reachable) as (H1 & _ & _ & H4 & _ & H6 & _).
  split; [exact dialed_friendly_reachable|].
  split; [exact H1|]. split; [exact H4|].
  apply H6. reflexivity.
Defined.

(** ** C3 *)

(** C3.  [Close] always leaves [closed] true.  Without a session it returns
    ErrShutdown and touches nothing else.  With a session and the permission
    withdrawn it gives the permission back and returns nil without calling
    the session (the world is unchanged).  With a session and the permission
    it returns what the session's Close returns.  And on a dialed client a
    later [Close], whatever happened between the two, returns nil or
    ErrShutdown. *)
Theorem C3_Close_cases (E : Env) (s : System) (acts : list Action) err c' w' :
  reachable E s ->
  Close E (sys_client s) (sys_world s) = (err, c', w') ->
  closed c' = true /\
  (getClient (sys_client s) = None -> err = Some ErrShutdown /\ w' = sys_world s) /\
  (forall p, getClient (sys_client s) = Some p ->
     closeCanBeCalled (sys_client s) = false ->
     err = None /\ closeCanBeCalled c' = true /\ w' = sys_world s) /\
  (forall p, getClient (sys_client s) = Some p ->
     closeCanBeCalled (sys_client s) = true ->
     (err, w') = rpc_Close E p (sys_world s) /\ closeCanBeCalled c' = true) /\
  (let s2 := run E acts (step E (ActCmd CmdClose) s) in
   let err2 := fst (fst (Close E (sys_client s2) (sys_world s2))) in
   err2 = None \/ err2 = Some ErrShutdown).
Proof.
  intros Hreach HClose.
  split; [eapply Close_fields; eauto|].
  unfold Close, getClient in HClose. cbn in HClose. unfold getClient.
  split; [|split; [|split]].
  - intros Hnil. rewrite Hnil in HClose. now inversion HClose.
  - intros p Hp Hf. rewrite Hp, Hf in HClose. cbn in HClose. now inversion HClose.
  - intros p Hp Hf. rewrite Hp, Hf in HClose. cbn in HClose.
    destruct (rpc_Close E p (sys_world s)) as [e w1]. now inversion HClose.
  - cbv zeta. set (s2 := run E acts (step E (ActCmd CmdClose) s)).
    assert (Hcl : closed (sys_client s2) = true).
    { apply run_closed. apply step_Close_closed. }
    assert (Hinv : lifecycle_inv (sys_client s2) (sys_world s2)).
    { apply reachable_inv with (E := E). apply reachable_run. now constructor. }
    unfold Close, getClient. cbn.
    destruct (client (sys_client s2)) as [p|] eqn:Hp; [|now right].
    destruct (closeCanBeCalled (sys_client s2)); cbn; [|now left].
    pose proof (inv_closed _ _ Hinv Hcl p Hp) as Hclosing.
    unfold session_closing in Hclosing. unfold rpc_Close.
    destruct (sessions (sys_world s2) !! p) as [r|]; [|discriminate].
    rewrite Hclosing. now right.
Qed.

(** The reset of a dialed client closes its session and fails to dial, which
    withdraws the permission; [Close] then returns nil without touching the
    world, and the next [Close] returns ErrShutdown. *)
Lemma C3_Close_cases_witness :
  let E := one_dial_env in
  let s := step E (ActCmd CmdReset) (dialed E [CallWithBlock]) in
  let s2 := run E [ActTick] (step E (ActCmd CmdClose) s) in
  closeCanBeCalled (sys_client s) = false /\
  fst (Close E (sys_client s) (sys_world s)) = (None, set_closeCanBeCalled true (set_closed true (sys_client s))) /\
  snd (Close E (sys_client s) (sys_world s)) = sys_world s /\
  (fst (fst (Close E (sys_client s2) (sys_world s2))) = None \/
   fst (fst (Close E (sys_client s2) (sys_world s2))) = Some ErrShutdown).
Proof.
  intros E s s2.
  assert (Hreach : reachable E s).
  { apply reachable_step. exact dialed_one_dial_reachable. }
  pose proof (C3_Close_cases E s [ActTick] None
                (set_closeCanBeCalled true (set_closed true (sys_client s))) (sys_world s)
                Hreach eq_refl) as (_ & _ & _ & _ & H5).
  split; [reflexivity|]. split; [reflexivity|]. split; [reflexivity|].
  exact H5.
Defined.

(** ** C10 *)

(** C10.  In every state a dialed client reaches, by whatever operations:
    while the close permission is withdrawn, the session the client refers
    to has had its Close called.  Hence after any [Close], also one that
    returned nil without forwarding, the session still referred to (if any)
    has had its Close called. *)
Theorem C10_permission_invariant (E : Env) (s : System) :
  reachable E s ->
  (closeCanBeCalled (sys_client s) = false ->
   forall p, getClient (sys_client s) = Some p ->
     close_attempted (sys_world s) p /\ session_closing (sys_world s) p = true) /\
  (forall err c' w', Close E (sys_client s) (sys_world s) = (err, c', w') ->
   forall p, getClient c' = Some p -> close_attempted w' p).
Proof.
  intros Hreach. pose proof (reachable_inv E s Hreach) as Hinv. split.
  - intros Hf p Hp. destruct (inv_permission _ _ Hinv Hf) as (q & Hq & Ha & Hc).
    unfold getClient in Hp. assert (q = p) by congruence. subst q. auto.
  - intros err c' w' HClose p Hp.
    unfold Close, getClient in *. cbn in HClose.
    destruct (client (sys_client s)) as [q|] eqn:Hq.
    2:{ inversion HClose; subst. cbn in Hp. congruence. }
    destruct (closeCanBeCalled (sys_client s)) eqn:Hf; cbn in HClose.
    + pose proof (inv_valid _ _ Hinv q Hq) as Hlt.
      destruct (rpc_Close_closing E q (sys_world s) Hlt) as [_ Hatt].
      destruct (rpc_Close E q (sys_world s)) as [e w1].
      inversion HClose; subst. cbn in Hp. rewrite Hq in Hp. injection Hp as <-. exact Hatt.
    + inversion HClose; subst. cbn in Hp. rewrite Hq in Hp. injection Hp as <-.
      destruct (inv_permission _ _ Hinv Hf) as (r & Hr & Ha & _).
      assert (r = q) by congruence. subst r. exact Ha.
Qed.

(** After a reset whose dial was refused the permission is withdrawn and
    session 0, still referred to, has been closed. *)
Lemma C10_permission_invariant_witness :
  let E := one_dial_env in
  let s := step E (ActCmd CmdReset) (dialed E [CallWithBlock]) in
  closeCanBeCalled (sys_client s) = false /\
  getClient (sys_client s) = Some 0%nat /\
  close_attempted (sys_world s) 0.
Proof.
  intros E s.
  assert (Hreach : reachable E s).
  { apply reachable_step. exact dialed_one_dial_reachable. }
  split; [reflexivity|]. split; [reflexivity|].
  exact (proj1 (proj1 (C10_permission_invariant E s Hreach) eq_refl 0%nat eq_refl)).
Defined.

(** ** C2 *)

(** The dial half of [Reset] for a dial that fails. *)
Lemma Reset_dial_fails E c w derr :
  dial_answer E (length (trace w)) (network (client_dialOptions c))
    (address (client_dialOptions c)) (timeout (client_dialOptions c)) = Some derr ->
  Reset_dial E c w =
    (Some derr, c,
     emit (EvDial (network (client_dialOptions c)) (address (client_dialOptions c))
             (timeout (client_dialOptions c)) (30 * Second)) w).
Proof. intros H. unfold Reset_dial. now rewrite H. Qed.

(** C2, counterexample.  A client dialed in blocking mode holds session 0.
    Its next reset closes that session and is refused by the network: it
    returns the dial error, and the session reference still reads session 0,
    not nil. *)
Lemma C2_counterexample :
  let E := one_dial_env in
  let s := dialed E [CallWithBlock] in
  let r := Reset E (sys_client s) (sys_world s) in
  Reset_dial_answer E (sys_client s) (sys_world s) = Some (OtherError "connection refused") /\
  fst (fst r) = Some (OtherError "connection refused") /\
  getClient (snd (fst r)) = Some 0%nat /\
  getClient (snd (fst r)) <> None.
Proof.
  cbv zeta. repeat split; try reflexivity. discriminate.
Qed.

(** C2, amended.  When [Reset] gets as far as dialing and the dial fails,
    it returns that dial error and leaves the session reference as it was.
    If no session was held the client is unchanged and the reference reads
    nil.  If a session was held the reference still reads that session: its
    Close has been called, the close permission is withdrawn, and calls
    dispatched through it return ErrShutdown. *)
Theorem C2_failed_dial_keeps_reference (E : Env) (s : System) (derr : error) :
  reachable E s ->
  Reset_reaches_dial E (sys_client s) (sys_world s) = true ->
  Reset_dial_answer E (sys_client s) (sys_world s) = Some derr ->
  exists c' w',
    Reset E (sys_client s) (sys_world s) = (Some derr, c', w') /\
    getClient c' = getClient (sys_client s) /\
    (getClient (sys_client s) = None -> c' = sys_client s) /\
    (forall p, getClient (sys_client s) = Some p ->
       closeCanBeCalled c' = false /\
       close_attempted w' p /\
       session_closing w' p = true /\
       forall ctx m a, fired_now ctx = false ->
         fst (callContext E c' ctx m a w') = Returned (Some ErrShutdown)).
Proof.
  intros Hreach Hdials Hanswer.
  pose proof (reachable_inv E s Hreach) as Hinv.
  destruct s as [c w cn mo]. cbn in *.
  unfold Reset_reaches_dial in Hdials. apply andb_prop in Hdials as [Hcl Htol].
  apply negb_true_iff in Hcl.
  unfold Reset_dial_answer, world_at_dial in Hanswer.
  unfold Reset. rewrite Hcl.
  destruct (getClient c) as [p|] eqn:Hp.
  - unfold getClient in Hp.
    pose proof (inv_valid _ _ Hinv p Hp) as Hlt.
    destruct (rpc_Close_closing E p w Hlt) as [Hclosing Hatt].
    destruct (rpc_Close E p w) as [cerr w1]. cbn in Htol, Hanswer, Hclosing, Hatt.
    assert (Hd : Reset_dial E (set_closeCanBeCalled false c) w1 =
                 (Some derr, set_closeCanBeCalled false c,
                  emit (EvDial (network (client_dialOptions c)) (address (client_dialOptions c))
                          (timeout (client_dialOptions c)) (30 * Second)) w1)).
    { apply (Reset_dial_fails E (set_closeCanBeCalled false c) w1 derr). exact Hanswer. }
    exists (set_closeCanBeCalled false c). eexists. split.
    { destruct cerr as [e|]; [rewrite Htol|]; exact Hd. }
    split; [exact Hp|]. split; [discriminate|].
    intros q [= <-].
    assert (Hatt' : close_attempted (emit (EvDial (network (client_dialOptions c))
                      (address (client_dialOptions c)) (timeout (client_dialOptions c))
                      (30 * Second)) w1) p).
    { apply (le_trace _ _ (emit_le _ w1)). exact Hatt. }
    assert (Hclosing' : session_closing (emit (EvDial (network (client_dialOptions c))
                      (address (client_dialOptions c)) (timeout (client_dialOptions c))
                      (30 * Second)) w1) p = true).
    { apply (le_closing _ _ (emit_le _ w1)). exact Hclosing. }
    repeat split; try assumption.
    intros ctx m a Hf. eapply callContext_closing; eauto.
  - exists c. eexists. split; [now apply Reset_dial_fails|].
    split; [exact Hp|]. split; [reflexivity|]. discriminate.
Qed.

(** The reset of the counterexample, read by the amended statement. *)
Lemma C2_failed_dial_keeps_reference_witness :
  let E := one_dial_env in
  let s := dialed E [CallWithBlock] in
  exists c' w',
    Reset E (sys_client s) (sys_world s) = (Some (OtherError "connection refused"), c', w') /\
    getClient c' = Some 0%nat /\
    closeCanBeCalled c' = false /\
    close_attempted w' 0.
Proof.
  intros E s.
  destruct (C2_failed_dial_keeps_reference E s (OtherError "connection refused")
              dialed_one_dial_reachable eq_refl eq_refl) as (c' & w' & H1 & H2 & _ & H4).
  exists c', w'. destruct (H4 0%nat eq_refl) as (Hf & Ha & _).
  repeat split; assumption.
Defined.

(** ** C4 *)

Lemma Dial_options_network_address n a opts :
  network (Dial_options n a opts) = n /\ address (Dial_options n a opts) = a.
Proof.
  unfold Dial_options. rewrite apply_options_app. cbn.
  destruct (logger _); cbn; auto.
Qed.

(** C4, counterexample.  [Dial] with [WithBlock] alone sets no dial timeout;
    the client then dials with timeout 0, which [net.Dialer] takes as no
    timeout, not with 5 seconds. *)
Lemma C4_counterexample :
  let s := dialed friendly_env [CallWithBlock] in
  last_timeout [CallWithBlock] = None /\
  timeout (client_dialOptions (sys_client s)) = 0 /\
  trace (sys_world s) = [EvDial "tcp" "127.0.0.1:9000" 0 (30 * Second); EvNewClient 0] /\
  timeout (client_dialOptions (sys_client s)) <> 5 * Second.
Proof.
  cbv zeta. repeat split; try reflexivity. discriminate.
Qed.

(** C4, amended.  The defaults are applied by the options themselves.  The
    dial timeout is that of the last [WithTimeout] given, replaced by 5
    seconds when it is not positive, and 0 when no [WithTimeout] is given.
    The heartbeat interval is that of the last [WithHeartbeat] that names a
    probe method, replaced by 500 milliseconds when it is not positive.  The
    client dials the given network and address with that timeout and a
    keep-alive of 30 seconds. *)
Theorem C4_defaults (E : Env) (n a : string) (ocs : list OptionCall) (c : Client) (w : World) :
  let o := Dial_options n a (map option_of ocs) in
  (forall d, last_timeout ocs = Some d -> d <= 0 -> timeout o = 5 * Second) /\
  (forall d, last_timeout ocs = Some d -> 0 < d -> timeout o = d) /\
  (last_timeout ocs = None -> timeout o = 0) /\
  (forall i, last_heartbeat ocs = Some i -> i <= 0 -> pingInterval o = 500 * Millisecond) /\
  (forall i, last_heartbeat ocs = Some i -> 0 < i -> pingInterval o = i) /\
  (client_dialOptions c = o ->
   In (EvDial n a (timeout o) (30 * Second)) (trace (snd (Reset_dial E c w)))).
Proof.
  intros o.
  assert (Ht : timeout o = match last_timeout ocs with
                           | Some d => timeout_of d | None => 0 end).
  { subst o. now rewrite Dial_options_timeout, timeout_apply_options. }
  assert (Hi : pingInterval o = match last_heartbeat ocs with
                                | Some i => interval_of i | None => 0 end).
  { subst o. now rewrite Dial_options_pingInterval, pingInterval_apply_options. }
  repeat split.
  - intros d Hd Hle. rewrite Ht, Hd. unfold timeout_of.
    destruct (Z.leb_spec d 0); [reflexivity | lia].
  - intros d Hd Hlt. rewrite Ht, Hd. unfold timeout_of.
    destruct (Z.leb_spec d 0); [lia | reflexivity].
  - intros Hd. now rewrite Ht, Hd.
  - intros i Hd Hle. rewrite Hi, Hd. unfold interval_of.
    destruct (Z.leb_spec i 0); [reflexivity | lia].
  - intros i Hd Hlt. rewrite Hi, Hd. unfold interval_of.
    destruct (Z.leb_spec i 0); [lia | reflexivity].
  - intros Ho. destruct (Dial_options_network_address n a (map option_of ocs)) as [Hn Ha].
    fold o in Hn, Ha. unfold Reset_dial. rewrite Ho, Hn, Ha.
    destruct (dial_answer _ _ _ _ _); cbn.
    + apply in_or_app. right. now left.
    + apply in_or_app. left. apply in_or_app. right. now left.
Qed.

(** A non-positive timeout and a non-positive heartbeat interval, given
    explicitly, are replaced by the defaults. *)
Lemma C4_defaults_witness :
  let ocs := [CallWithTimeout 0; CallWithHeartbeat "Health.Ping" (-1) None; CallWithBlock] in
  let o := Dial_options "tcp" "127.0.0.1:9000" (map option_of ocs) in
  timeout o = 5 * Second /\ pingInterval o = 500 * Millisecond.
Proof.
  intros ocs o.
  destruct (C4_defaults friendly_env "tcp" "127.0.0.1:9000" ocs
              (mkClient None true false o) empty_world) as (H1 & _ & _ & H4 & _).
  split; [apply (H1 0); [reflexivity | lia] | apply (H4 (-1)); [reflexivity | lia]].
Defined.

(** ** C5 *)

Lemma is_Background_never ctx : is_Background ctx = true -> ctx_Done ctx = None.
Proof. destruct ctx; [reflexivity | discriminate..]. Qed.

(** Under a token that never fires the dispatcher does what it does under
    [context.Background()], whether or not the token is that very value. *)
Lemma callContext_never_fires E c ctx m a w :
  ctx_Done ctx = None ->
  callContext E c ctx m a w = callContext E c Background m a w.
Proof.
  intros Hnever. unfold callContext. destruct (getClient c) as [p|]; [|reflexivity].
  destruct (is_Background ctx); [reflexivity|]. cbn.
  destruct (rpc_Go E p m a w) as [[call|] w1]; unfold select_call, await; [|reflexivity].
  rewrite Hnever. destruct (completion call) as [[d err]|]; reflexivity.
Qed.

(** C5.  [Call] is [CallContext] under [context.Background()], the token
    that never fires, in every client state.  At the dispatcher any other
    token that never fires gives the same result, so when no interceptor is
    installed [Call] is also [CallContext] under any such token. *)
Theorem C5_Call_is_CallContext_never_firing (E : Env) (c : Client) (ctx : Context)
    (m : string) (a : Payload) (w : World) :
  ctx_Done ctx = None ->
  Call E c m a w = CallContext E c Background m a w /\
  ctx_Done Background = None /\
  callContext E c ctx m a w = callContext E c Background m a w /\
  (callInterceptor (client_dialOptions c) = None ->
   Call E c m a w = CallContext E c ctx m a w /\
   Call E c m a w = callContext E c ctx m a w).
Proof.
  intros Hnever. split; [reflexivity|]. split; [reflexivity|].
  split; [now apply callContext_never_fires|].
  intros Hnone. unfold Call, CallContext. rewrite Hnone.
  rewrite (callContext_never_fires E c ctx m a w Hnever). auto.
Qed.

(** On a live session whose requests are answered, under a value context
    over a never-cancelled context. *)
Lemma C5_Call_is_CallContext_never_firing_witness :
  let E := friendly_env in
  let s := dialed E [CallWithBlock] in
  let ctx := context_WithValue (context_WithCancel Background None) "trace-id" "42" in
  Call E (sys_client s) "Arith.Add" (Data "1,2") (sys_world s) =
  CallContext E (sys_client s) ctx "Arith.Add" (Data "1,2") (sys_world s) /\
  fst (Call E (sys_client s) "Arith.Add" (Data "1,2") (sys_world s)) = Returned None.
Proof.
  intros E s ctx.
  destruct (C5_Call_is_CallContext_never_firing E (sys_client s) ctx "Arith.Add" (Data "1,2")
              (sys_world s) eq_refl) as (_ & _ & _ & H).
  split; [exact (proj1 (H eq_refl)) | reflexivity].
Defined.

(** ** C7 *)

(** C7.  Without a session [callContext] returns ErrShutdown at once, the
    world untouched, as the specification says.  With a session it calls
    the session's Go as the operand of its select, before the select looks
    at the token: while the send of Go does not return, [callContext] does
    not return either, whatever the token, fired or not.  [goContext] runs
    the same Go in a goroutine, and under these very conditions it returns
    the call completed with the token's error as soon as the token fires. *)
Theorem C7_callContext_waits_for_Go (E : Env) (c : Client) (ctx : Context) (m : string)
    (a : Payload) (w : World) (p : nat) :
  (getClient c = None -> callContext E c ctx m a w = (Returned (Some ErrShutdown), w)) /\
  (getClient c = Some p ->
   fst (rpc_Go E p m a w) = None ->
   callContext E c ctx m a w = (Blocked, emit (EvGo p m a) w) /\
   forall t cerr, ctx_Done ctx = Some (t, cerr) ->
     goContext E c ctx m a w = (Some (completed_call m a cerr), emit (EvGo p m a) w)).
Proof.
  split; [apply callContext_nil|].
  intros Hp HGo. pose proof (rpc_Go_world E p m a w) as Hw. split.
  - unfold callContext. rewrite Hp.
    destruct (rpc_Go E p m a w) as [call w1]. cbn in HGo, Hw. subst call w1.
    destruct (is_Background ctx); reflexivity.
  - intros t cerr Hdone. unfold goContext. rewrite Hp.
    destruct (is_Background ctx) eqn:Hbg.
    { apply is_Background_never in Hbg. congruence. }
    destruct (rpc_Go E p m a w) as [call w1]. cbn in HGo, Hw. subst call w1.
    now rewrite Hdone.
Qed.

(** A connected client whose transport is saturated, a token with a
    deadline of one millisecond: [callContext] does not return, [goContext]
    returns the call completed with DeadlineExceeded. *)
Lemma C7_callContext_waits_for_Go_witness :
  let E := saturated_env in
  let s := dialed E [CallWithBlock] in
  let ctx := context_WithTimeout Background Millisecond in
  fst (callContext E (sys_client s) ctx "Arith.Add" (Data "1,2") (sys_world s)) = Blocked /\
  fst (goContext E (sys_client s) ctx "Arith.Add" (Data "1,2") (sys_world s)) =
    Some (completed_call "Arith.Add" (Data "1,2") DeadlineExceeded).
Proof.
  intros E s ctx.
  destruct (proj2 (C7_callContext_waits_for_Go E (sys_client s) ctx "Arith.Add" (Data "1,2")
                     (sys_world s) 0) eq_refl eq_refl) as [Hcall Hgo].
  rewrite Hcall, (Hgo (Z.to_N Millisecond) DeadlineExceeded eq_refl). split; reflexivity.
Defined.

(** ** C6 *)

(** C6.  Without a session [goContext] returns, under any token, a call
    that is already completed with ErrShutdown (its Done channel holds it),
    and so do [Go] and [GoContext] when no interceptor is installed.  With a
    session, when the token fires before the delegating goroutine delivers,
    [goContext] returns a call of its own making, already completed with the
    token's error; the request has been handed to the session all the same. *)
Theorem C6_goContext_synthetic (E : Env) (c : Client) (ctx : Context) (m : string)
    (a : Payload) (w : World) :
  (getClient c = None ->
   goContext E c ctx m a w = (Some (completed_call m a ErrShutdown), w) /\
   (goInterceptor (client_dialOptions c) = None ->
    Go E c m a w = (Some (completed_call m a ErrShutdown), w) /\
    GoContext E c ctx m a w = (Some (completed_call m a ErrShutdown), w))) /\
  (forall p t cerr,
     getClient c = Some p ->
     ctx_Done ctx = Some (t, cerr) ->
     (t < delegation_latency E (length (trace w)))%N ->
     goContext E c ctx m a w = (Some (completed_call m a cerr), snd (rpc_Go E p m a w))) /\
  (forall err,
     let call := completed_call m a err in
     Done call = true /\ Error call = Some err /\ ServiceMethod call = m /\ Args call = a).
Proof.
  split; [|split].
  - intros Hnil.
    assert (H : forall ctx', goContext E c ctx' m a w =
                             (Some (completed_call m a ErrShutdown), w)).
    { intros ctx'. unfold goContext. now rewrite Hnil. }
    split; [apply H|]. intros Hnone. unfold Go, GoContext. rewrite Hnone. auto.
  - intros p t cerr Hp Hdone Hlt. unfold goContext. rewrite Hp.
    destruct (is_Background ctx) eqn:Hbg.
    { apply is_Background_never in Hbg. congruence. }
    destruct (rpc_Go E p m a w) as [[call|] w1]; rewrite Hdone; cbn [snd]; [|reflexivity].
    destruct (N.ltb_spec (delegation_latency E (length (trace w))) t) as [H|H]; [lia|].
    destruct (N.ltb_spec t (delegation_latency E (length (trace w)))) as [H'|H']; [reflexivity | lia].
  - intros err. cbn. auto.
Qed.

(** A client that was never connected, and a connected one called under a
    token that was cancelled before the call. *)
Lemma C6_goContext_synthetic_witness :
  let idle := dialed friendly_env [] in
  let live := dialed silent_env [CallWithBlock] in
  let cancelled := context_WithCancel Background (Some 0%N) in
  Go friendly_env (sys_client idle) "Arith.Add" (Data "1,2") (sys_world idle) =
    (Some (completed_call "Arith.Add" (Data "1,2") ErrShutdown), sys_world idle) /\
  fst (goContext silent_env (sys_client live) cancelled "Arith.Add" (Data "1,2") (sys_world live)) =
    Some (completed_call "Arith.Add" (Data "1,2") Canceled).
Proof.
  intros idle live cancelled. split.
  - destruct (C6_goContext_synthetic friendly_env (sys_client idle) Background
                "Arith.Add" (Data "1,2") (sys_world idle)) as (H & _ & _).
    exact (proj1 (proj2 (H eq_refl) eq_refl)).
  - destruct (C6_goContext_synthetic silent_env (sys_client live) cancelled
                "Arith.Add" (Data "1,2") (sys_world live)) as (_ & H & _).
    rewrite (H 0%nat 0%N Canceled eq_refl eq_refl eq_refl). reflexivity.
Defined.

(** ** C8 *)

(** What the probe does.  Without a session it returns ErrShutdown and
    leaves the world alone.  With a session it hands one request, empty, to
    that session; it returns when Go has returned, by the three-second token
    at the latest, and does not return while Go does not. *)
Lemma ping_outcome E c w :
  match getClient c with
  | None => ping E c w = (Returned (Some ErrShutdown), w)
  | Some p =>
      snd (ping E c w) = emit (EvGo p (pingServiceMethod (client_dialOptions c)) EmptyStruct) w /\
      match fst (rpc_Go E p (pingServiceMethod (client_dialOptions c)) EmptyStruct w) with
      | Some _ => exists err, fst (ping E c w) = Returned err
      | None => fst (ping E c w) = Blocked
      end
  end.
Proof.
  unfold ping, callContext. destruct (getClient c) as [p|]; [|reflexivity].
  cbn. pose proof (rpc_Go_world E p (pingServiceMethod (client_dialOptions c)) EmptyStruct w) as Hw.
  destruct (rpc_Go E p _ _ w) as [[call|] w1]; cbn in Hw |- *; subst w1.
  - split; [reflexivity|]. unfold select_call. cbn.
    destruct (completion call) as [[d err]|]; [|eauto].
    destruct (_ <? _)%N; [eauto|]. destruct (_ <? _)%N; [eauto|].
    destruct (select_first _ _); eauto.
  - split; reflexivity.
Qed.

Section FineSteps.

Variable E : Env.

Lemma defaultPingHandler_run_closed result c w c' w' :
  closed c = true ->
  defaultPingHandler_run E result c w = (c', w') ->
  closed c' = true /\ client c' = client c /\
  client_dialOptions c' = client_dialOptions c /\
  length (sessions w') = length (sessions w).
Proof.
  intros Hcl. unfold defaultPingHandler_run. destruct result as [e|]; [|intros [= <- <-]; auto].
  destruct (is_ErrShutdown e); cbn.
  - rewrite (Reset_closed E c w Hcl). intros [= <- <-].
    destruct (Errorf_extends c "[error][rpcx]: Reset: %s" ErrShutdown w) as [-> _]. auto.
  - intros [= <- <-].
    destruct (Errorf_extends c "[error][rpcx]: ping: %s" e w) as [-> _]. auto.
Qed.

(** Every piece of the monitor keeps the lifecycle invariant. *)
Lemma fine_step_inv a f :
  lifecycle_inv (sys_client (sys f)) (sys_world (sys f)) ->
  lifecycle_inv (sys_client (sys (fine_step E a f))) (sys_world (sys (fine_step E a f))).
Proof.
  intros Hinv. destruct a as [cmd| |p| | |]; cbn [fine_step sys].
  - now apply step_inv.
  - now apply step_inv.
  - now apply step_inv.
  - destruct (phase f); try exact Hinv.
    destruct (monitoring (sys f)); [|exact Hinv].
    destruct (closed _); exact Hinv.
  - destruct (phase f); try exact Hinv.
    pose proof (extends_le _ _ (ping_extends E (sys_client (sys f)) (sys_world (sys f)))) as L.
    destruct (ping E _ _) as [[err|] w1]; cbn in L |- *;
      eapply lifecycle_inv_mono; eauto.
  - destruct (phase f) as [| |err|[|cmd rest]| |]; try exact Hinv.
    + destruct (pingHandler _) as [[|body]|]; try exact Hinv.
      destruct (defaultPingHandler_run E err _ _) as [c2 w2] eqn:H. cbn.
      eapply defaultPingHandler_run_inv; eauto.
    + destruct (run_cmd E cmd _ _) as [[r c1] w1] eqn:H. cbn.
      eapply run_cmd_inv; eauto.
Qed.

Lemma fine_reachable_inv f :
  fine_reachable E f -> lifecycle_inv (sys_client (sys f)) (sys_world (sys f)).
Proof.
  induction 1 as [n a opts w s H|a f _ IH].
  - cbn. eapply Dial_inv; eauto.
  - now apply fine_step_inv.
Qed.

Lemma fine_reachable_run acts : forall f,
  fine_reachable E f -> fine_reachable E (fine_run E acts f).
Proof.
  induction acts as [|a rest IH]; intros f H; [exact H|].
  apply IH. now constructor.
Qed.

(** Once closed, and the monitor waiting for a tick: no piece of the
    monitor and nothing else changes that. *)
Lemma fine_step_closed_waiting a f :
  closed (sys_client (sys f)) = true -> phase f = Waiting ->
  closed (sys_client (sys (fine_step E a f))) = true /\ phase (fine_step E a f) = Waiting.
Proof.
  intros Hcl Hph. destruct a as [cmd| |p| | |]; cbn [fine_step sys phase].
  - split; [apply step_closed, Hcl | exact Hph].
  - split; [apply step_closed, Hcl | exact Hph].
  - split; [apply step_closed, Hcl | exact Hph].
  - rewrite Hph. destruct (monitoring (sys f)); [|auto]. rewrite Hcl. cbn. auto.
  - rewrite Hph. auto.
  - rewrite Hph. auto.
Qed.

Lemma fine_run_closed_waiting acts : forall f,
  closed (sys_client (sys f)) = true -> phase f = Waiting ->
  closed (sys_client (sys (fine_run E acts f))) = true /\ phase (fine_run E acts f) = Waiting.
Proof.
  induction acts as [|a rest IH]; intros f Hcl Hph; [auto|].
  cbn. destruct (fine_step_closed_waiting a f Hcl Hph) as [Hcl' Hph']. now apply IH.
Qed.

(** A monitor that has returned does nothing any more. *)
Lemma fine_step_gone a f :
  monitoring (sys f) = false -> phase f = Waiting ->
  monitoring (sys (fine_step E a f)) = false /\ phase (fine_step E a f) = Waiting.
Proof.
  intros Hm Hph. destruct a as [cmd| |p| | |]; cbn [fine_step sys phase].
  - split; [now apply monitoring_step | exact Hph].
  - split; [now apply monitoring_step | exact Hph].
  - split; [now apply monitoring_step | exact Hph].
  - rewrite Hph, Hm. auto.
  - rewrite Hph. auto.
  - rewrite Hph. auto.
Qed.

Lemma fine_run_gone acts : forall f,
  monitoring (sys f) = false -> phase f = Waiting ->
  monitoring (sys (fine_run E acts f)) = false /\ phase (fine_run E acts f) = Waiting.
Proof.
  induction acts as [|a rest IH]; intros f Hm Hph; [auto|].
  cbn. destruct (fine_step_gone a f Hm Hph) as [Hm' Hph']. now apply IH.
Qed.

(** The iteration that nothing interrupts, with the default handler, is
    the check, the probe and the handler one after the other. *)
Lemma uninterrupted_iteration f c' w' :
  phase f = Waiting -> monitoring (sys f) = true ->
  pingHandler (client_dialOptions (sys_client (sys f))) = Some defaultPingHandler ->
  monitor_tick E (sys_client (sys f)) (sys_world (sys f)) = TickHandled c' w' ->
  fine_run E [FTick; FProbe; FHandle] f = mkMonitored (step E ActTick (sys f)) Waiting.
Proof.
  intros Hph Hm Hh Ht. cbn [fine_run fold_left fine_step step]. rewrite Hph, Hm, Ht.
  revert Ht. unfold monitor_tick. destruct (closed _); [discriminate|]. cbn [sys phase].
  destruct (ping E _ _) as [[err|] w1]; [|discriminate].
  rewrite Hh. cbn. destruct (defaultPingHandler_run E err _ w1) as [c2 w2].
  intros [= <- <-]. rewrite Hh. unfold with_state. cbn. now rewrite Hm.
Qed.

End FineSteps.

(** C8, counterexample.  A connected client with a heartbeat.  The ticker
    fires and the monitor reads [closed] as false; [Close] is called and
    returns; the monitor, which holds no lock, goes on to its probe and to
    the handler.  The trace shows the probe handed to session 0 after the
    Close of session 0, and the log of the reset the handler then tried.
    And on a saturated transport the probe of a tick does not return: the
    three-second token does not bound the send, and no handler is called. *)
Lemma C8_counterexample :
  let ocs := [CallWithBlock; CallWithHeartbeat "Health.Ping" (50 * Millisecond) None] in
  let f := mkMonitored (dialed friendly_env ocs) Waiting in
  let g := mkMonitored (dialed saturated_env ocs) Waiting in
  closed (sys_client (sys (fine_run friendly_env [FTick; FCmd CmdClose] f))) = true /\
  trace (sys_world (sys (fine_run friendly_env [FTick; FCmd CmdClose; FProbe; FHandle] f))) =
    [EvDial "tcp" "127.0.0.1:9000" 0 (30 * Second); EvNewClient 0;
     EvClose 0;
     EvGo 0 "Health.Ping" EmptyStruct;
     EvErrorf defaultLogger "[error][rpcx]: Reset: %s" ErrShutdown] /\
  phase (fine_run saturated_env [FTick; FProbe] g) = Stuck /\
  fine_run saturated_env [FTick; FProbe; FHandle] g = fine_run saturated_env [FTick; FProbe] g.
Proof.
  cbv zeta. repeat split; reflexivity.
Qed.

(** C8, amended.  In every state the client and its monitor reach:
    - a tick delivered to the waiting monitor reads [closed]; if it is true
      the monitor returns, changing nothing, and is gone for good; if it is
      false the monitor goes on to the probe, and nothing else has changed;
    - the probe is issued only then, once: it is [callContext] for the
      configured method with an empty request under a token of three
      seconds, on the client as it is by then; it hands one request to the
      session, or none when there is no session; if [Close] has returned in
      the meantime it is answered ErrShutdown;
    - when the probe has returned, the configured handler is called with its
      result;
    - when [Close] returns while the monitor is waiting for a tick, then,
      whatever happens afterwards, no probe is issued and no handler called
      any more, and the next tick ends the monitor. *)
Theorem C8_monitor_checks_then_probes (E : Env) (f : Monitored) (acts : list FineAction) :
  fine_reachable E f ->
  let c := sys_client (sys f) in
  let w := sys_world (sys f) in
  let o := client_dialOptions c in
  let probe := callContext E c (context_WithTimeout Background (3 * Second))
                 (pingServiceMethod o) EmptyStruct w in
  (phase f = Waiting -> monitoring (sys f) = true ->
   (closed c = true ->
    sys_client (sys (fine_step E FTick f)) = c /\
    sys_world (sys (fine_step E FTick f)) = w /\
    forall later,
      monitoring (sys (fine_run E later (fine_step E FTick f))) = false /\
      phase (fine_run E later (fine_step E FTick f)) = Waiting) /\
   (closed c = false -> fine_step E FTick f = mkMonitored (sys f) Checked)) /\
  (phase f <> Checked -> fine_step E FProbe f = f) /\
  (phase f = Checked ->
   sys (fine_step E FProbe f) = with_state c (snd probe) (sys f) /\
   match getClient c with
   | Some p => snd probe = emit (EvGo p (pingServiceMethod o) EmptyStruct) w
   | None => snd probe = w
   end /\
   (forall err, fst probe = Returned err -> phase (fine_step E FProbe f) = Probed err) /\
   (closed c = true -> fst probe = Returned (Some ErrShutdown))) /\
  (forall err, phase f = Probed err ->
   match pingHandler o with
   | Some defaultPingHandler =>
       let '(c2, w2) := run_pingHandler E defaultPingHandler err c w in
       fine_step E FHandle f = mkMonitored (with_state c2 w2 (sys f)) Waiting
   | Some (userPingHandler body) =>
       fine_step E FHandle f = mkMonitored (sys f) (Handling (body err))
   | None => fine_step E FHandle f = mkMonitored (sys f) Panicked
   end) /\
  (phase f = Waiting ->
   let g := fine_run E acts (fine_step E (FCmd CmdClose) f) in
   phase g = Waiting /\
   fine_step E FProbe g = g /\
   fine_step E FHandle g = g /\
   sys_client (sys (fine_step E FTick g)) = sys_client (sys g) /\
   sys_world (sys (fine_step E FTick g)) = sys_world (sys g) /\
   monitoring (sys (fine_step E FTick g)) = false).
Proof.
  intros Hreach. cbv zeta.
  pose proof (fine_reachable_inv E f Hreach) as Hinv.
  split; [|split; [|split; [|split]]].
  - intros Hph Hm. split.
    + intros Hcl.
      assert (Hg : fine_step E FTick f =
                   mkMonitored (mkSystem (sys_client (sys f)) (sys_world (sys f))
                                  (connecting (sys f)) false) Waiting).
      { cbn. now rewrite Hph, Hm, Hcl. }
      rewrite Hg. cbn. split; [reflexivity|]. split; [reflexivity|].
      intros later. now apply fine_run_gone.
    + intros Hcl. cbn. now rewrite Hph, Hm, Hcl.
  - intros Hph. cbn. destruct (phase f); try reflexivity. congruence.
  - intros Hph. pose proof (ping_outcome E (sys_client (sys f)) (sys_world (sys f))) as Hout.
    unfold ping in Hout.
    set (probe := callContext E (sys_client (sys f))
                    (context_WithTimeout Background (3 * Second))
                    (pingServiceMethod (client_dialOptions (sys_client (sys f))))
                    EmptyStruct (sys_world (sys f))) in *.
    assert (Hstep : fine_step E FProbe f =
                    mkMonitored (with_state (sys_client (sys f)) (snd probe) (sys f))
                      (match fst probe with Returned err => Probed err | Blocked => Stuck end)).
    { cbn. rewrite Hph. unfold ping. fold probe. now destruct probe as [[err|] w1]. }
    rewrite Hstep. cbn [sys phase]. split; [reflexivity|]. split.
    + destruct (getClient (sys_client (sys f))) as [p|]; [exact (proj1 Hout) | now rewrite Hout].
    + split.
      * intros err ->. reflexivity.
      * intros Hcl. subst probe. apply callContext_after_close; auto.
  - intros err Hph. cbn [fine_step]. rewrite Hph.
    destruct (pingHandler _) as [[|body]|]; try reflexivity. cbn.
    now destruct (defaultPingHandler_run E err _ _).
  - intros Hph. cbv zeta.
    set (f1 := fine_step E (FCmd CmdClose) f).
    assert (Hcl1 : closed (sys_client (sys f1)) = true) by apply step_Close_closed.
    assert (Hph1 : phase f1 = Waiting) by exact Hph.
    destruct (fine_run_closed_waiting E acts f1 Hcl1 Hph1) as [Hcl Hw].
    set (g := fine_run E acts f1) in *.
    split; [exact Hw|]. split; [cbn; now rewrite Hw|]. split; [cbn; now rewrite Hw|].
    cbn. rewrite Hw. destruct (monitoring (sys g)) eqn:Hm; [rewrite Hcl|]; cbn; auto.
Qed.

(** A connected client with a heartbeat: the first tick finds it open and
    leads to the probe; after a [Close] met while waiting, the next tick
    ends the monitor. *)
Lemma C8_monitor_checks_then_probes_witness :
  let E := friendly_env in
  let ocs := [CallWithBlock; CallWithHeartbeat "Health.Ping" (50 * Millisecond) None] in
  let f := mkMonitored (dialed E ocs) Waiting in
  fine_step E FTick f = mkMonitored (sys f) Checked /\
  monitoring (sys (fine_step E FTick (fine_step E (FCmd CmdClose) f))) = false.
Proof.
  intros E ocs f.
  assert (Hreach : fine_reachable E f).
  { eapply fine_reachable_Dial with (network' := "tcp") (address' := "127.0.0.1:9000")
      (opts := map option_of ocs) (w := empty_world). reflexivity. }
  destruct (C8_monitor_checks_then_probes E f [] Hreach) as (Htick & _ & _ & _ & Hafter).
  split.
  - exact (proj2 (Htick eq_refl eq_refl) eq_refl).
  - exact (proj2 (proj2 (proj2 (proj2 (proj2 (Hafter eq_refl)))))).
Defined.

(** ** C9 *)

(** C9.  The default handler leaves client and world as they are on a nil
    result.  On an error other than ErrShutdown it logs the error and does
    nothing else: the client and the sessions are unchanged and the trace
    gains the one log entry.  On ErrShutdown it calls [Reset]; when that
    succeeds nothing is logged, when it fails the error of [Reset] is
    logged. *)
Theorem C9_defaultPingHandler (E : Env) (c : Client) (w : World) :
  run_pingHandler E defaultPingHandler None c w = (c, w) /\
  (forall e, e <> ErrShutdown ->
     let '(c', w') := run_pingHandler E defaultPingHandler (Some e) c w in
     c' = c /\ w' = Errorf c "[error][rpcx]: ping: %s" e w /\
     sessions w' = sessions w /\
     forall l, logger (client_dialOptions c) = Some l ->
       trace w' = trace w ++ [EvErrorf l "[error][rpcx]: ping: %s" e]) /\
  (let '(rerr, c1, w1) := Reset E c w in
   run_pingHandler E defaultPingHandler (Some ErrShutdown) c w =
   (c1, match rerr with
        | None => w1
        | Some err => Errorf c1 "[error][rpcx]: Reset: %s" err w1
        end)).
Proof.
  split; [reflexivity|]. split.
  - intros e He. cbn. assert (Hne : is_ErrShutdown e = false) by (destruct e; cbn; congruence).
    rewrite Hne. cbn. repeat split.
    + unfold Errorf. destruct (logger _); reflexivity.
    + intros l Hl. unfold Errorf. now rewrite Hl.
  - cbn. destruct (Reset E c w) as [[[err|] c1] w1]; reflexivity.
Qed.

(** A probe that timed out is logged; a probe that met a closed session
    makes the handler reset the client, here with success and no log. *)
Lemma C9_defaultPingHandler_witness :
  let E := friendly_env in
  let s := dialed E [CallWithBlock] in
  trace (snd (run_pingHandler E defaultPingHandler (Some DeadlineExceeded)
                (sys_client s) (sys_world s))) =
    trace (sys_world s) ++ [EvErrorf defaultLogger "[error][rpcx]: ping: %s" DeadlineExceeded] /\
  run_pingHandler E defaultPingHandler (Some ErrShutdown) (sys_client s) (sys_world s) =
    (snd (fst (Reset E (sys_client s) (sys_world s))), snd (Reset E (sys_client s) (sys_world s))).
Proof.
  intros E s.
  destruct (C9_defaultPingHandler E (sys_client s) (sys_world s)) as (_ & Hlog & Hreset).
  split.
  - specialize (Hlog DeadlineExceeded ltac:(discriminate)).
    destruct (run_pingHandler E defaultPingHandler (Some DeadlineExceeded) _ _) as [c' w'].
    destruct Hlog as (_ & _ & _ & H). apply H. reflexivity.
  - exact Hreset.
Defined.

(** * Further properties of the lifecycle and the heartbeat *)

Lemma rpc_Close_length E p w : length (sessions (snd (rpc_Close E p w))) = length (sessions w).
Proof.
  unfold rpc_Close. destruct (sessions w !! p) as [s|]; [|reflexivity].
  destruct (closing s); cbn; [reflexivity | apply length_insert].
Qed.

Lemma world_at_dial_length E c w :
  length (sessions (world_at_dial E c w)) = length (sessions w).
Proof.
  unfold world_at_dial. destruct (getClient c); [apply rpc_Close_length | reflexivity].
Qed.

(** What [Reset] returns when it succeeds: it got as far as dialing, the
    dial connected, and the new session was appended to the heap left by the
    close of the old one. *)
Lemma Reset_success E c w c' w' :
  Reset E c w = (None, c', w') ->
  Reset_reaches_dial E c w = true /\
  Reset_dial_answer E c w = None /\
  c' = setClient (Some (length (sessions w))) (set_closeCanBeCalled true c) /\
  sessions w' = sessions (world_at_dial E c w) ++ [mkRpcClient false false].
Proof.
  unfold Reset, Reset_reaches_dial, Reset_dial_answer.
  pose proof (world_at_dial_length E c w) as Hlen. revert Hlen. unfold world_at_dial.
  destruct (closed c); [discriminate|]. cbn [negb andb].
  assert (Hdial : forall c0 w0,
            client_dialOptions c0 = client_dialOptions c ->
            length (sessions w0) = length (sessions w) ->
            Reset_dial E c0 w0 = (None, c', w') ->
            dial_answer E (length (trace w0)) (network (client_dialOptions c))
              (address (client_dialOptions c)) (timeout (client_dialOptions c)) = None /\
            c' = setClient (Some (length (sessions w))) (set_closeCanBeCalled true c0) /\
            sessions w' = sessions w0 ++ [mkRpcClient false false]).
  { intros c0 w0 Ho Hl. unfold Reset_dial. rewrite Ho.
    destruct (dial_answer _ _ _ _ _); [discriminate|].
    cbn. intros [= <- <-]. rewrite Hl. auto. }
  destruct (getClient c) as [p|].
  - destruct (rpc_Close E p w) as [[e|] w1]; cbn [fst snd]; intros Hlen.
    + destruct (is_ErrShutdown e); [|discriminate].
      intros H.
      destruct (Hdial (set_closeCanBeCalled false c) w1 eq_refl Hlen H) as (A & B & C).
      repeat split; [exact A | exact B | exact C].
    + intros H.
      destruct (Hdial (set_closeCanBeCalled false c) w1 eq_refl Hlen H) as (A & B & C).
      repeat split; [exact A | exact B | exact C].
  - intros Hlen H. destruct (Hdial c w eq_refl Hlen H) as (A & B & C).
    repeat split; [exact A | exact B | exact C].
Qed.

(** Successful reconnect.  When [Reset] returns nil on a dialed client, the
    client refers to a session that did not exist before, one more than
    before exist, the close permission is granted, the new session is not
    closing, and the session held before, if any, has had its Close called
    and is closing. *)
Theorem Reset_success_installs_fresh_session (E : Env) (s : System) c' w' :
  reachable E s ->
  Reset E (sys_client s) (sys_world s) = (None, c', w') ->
  getClient c' = Some (length (sessions (sys_world s))) /\
  length (sessions w') = S (length (sessions (sys_world s))) /\
  closeCanBeCalled c' = true /\
  session_closing w' (length (sessions (sys_world s))) = false /\
  (forall p, getClient (sys_client s) = Some p ->
     close_attempted w' p /\ session_closing w' p = true).
Proof.
  intros Hreach HReset. pose proof (reachable_inv E s Hreach) as Hinv.
  destruct (Reset_inv E _ _ _ _ _ Hinv HReset) as [_ Hle].
  destruct (Reset_success E _ _ _ _ HReset) as (_ & _ & -> & Hs).
  pose proof (world_at_dial_length E (sys_client s) (sys_world s)) as Hlen.
  split; [reflexivity|]. split.
  { rewrite Hs, length_app. cbn. lia. }
  split; [reflexivity|]. split.
  { unfold session_closing. rewrite Hs.
    rewrite lookup_app_r by lia. rewrite Hlen, Nat.sub_diag. reflexivity. }
  intros p Hp. unfold getClient in Hp.
  pose proof (inv_valid _ _ Hinv p Hp) as Hlt.
  destruct (rpc_Close_closing E p (sys_world s) Hlt) as [Hclosing Hatt].
  assert (Hmid : world_le (snd (rpc_Close E p (sys_world s))) w').
  { revert HReset. unfold Reset. destruct (closed _); [discriminate|].
    unfold getClient. rewrite Hp.
    destruct (rpc_Close E p (sys_world s)) as [[e|] w1]; cbn [snd].
    - destruct (is_ErrShutdown e); [|discriminate].
      unfold Reset_dial. destruct (dial_answer _ _ _ _ _); [discriminate|].
      cbn. intros [= _ <-]. eapply world_le_trans; [apply emit_le|].
      apply (rpc_NewClient_le (emit _ w1)).
    - unfold Reset_dial. destruct (dial_answer _ _ _ _ _); [discriminate|].
      cbn. intros [= _ <-]. eapply world_le_trans; [apply emit_le|].
      apply (rpc_NewClient_le (emit _ w1)). }
  split; [apply (le_trace _ _ Hmid), Hatt | apply (le_closing _ _ Hmid), Hclosing].
Qed.

(** The reset of a connected client on a network that accepts every dial. *)
Lemma Reset_success_installs_fresh_session_witness :
  let E := friendly_env in
  let s := dialed E [CallWithBlock] in
  getClient (snd (fst (Reset E (sys_client s) (sys_world s)))) = Some 1%nat /\
  close_attempted (snd (Reset E (sys_client s) (sys_world s))) 0.
Proof.
  intros E s.
  destruct (Reset_success_installs_fresh_session E s
              (snd (fst (Reset E (sys_client s) (sys_world s))))
              (snd (Reset E (sys_client s) (sys_world s)))
              dialed_friendly_reachable eq_refl) as (H1 & _ & _ & _ & H5).
  split; [exact H1 | exact (proj1 (H5 0%nat eq_refl))].
Defined.

(** The heartbeat probe returns exactly when the session's Go returns.
    Without a session [ping] returns ErrShutdown and touches nothing.  With
    a session it hands one empty request to it; if Go returns, [ping]
    returns, by its three-second token at the latest; if Go never returns,
    [ping] never returns: the token bounds the wait for the reply, not the
    send. *)
Theorem heartbeat_probe_returns_iff_Go_returns (E : Env) (c : Client) (w : World) :
  let m := pingServiceMethod (client_dialOptions c) in
  match getClient c with
  | None => ping E c w = (Returned (Some ErrShutdown), w)
  | Some p =>
      snd (ping E c w) = emit (EvGo p m EmptyStruct) w /\
      ((exists err, fst (ping E c w) = Returned err) <->
       fst (rpc_Go E p m EmptyStruct w) <> None) /\
      (fst (ping E c w) = Blocked <-> fst (rpc_Go E p m EmptyStruct w) = None)
  end.
Proof.
  cbv zeta. pose proof (ping_outcome E c w) as H.
  destruct (getClient c) as [p|]; [|exact H].
  destruct H as [Hw H]. split; [exact Hw|].
  destruct (fst (rpc_Go E p _ EmptyStruct w)) as [call|].
  - destruct H as [err Herr]. split.
    + split; [discriminate | eauto].
    + rewrite Herr. split; discriminate.
  - rewrite H. split.
    + split; [intros [err Herr]; discriminate | congruence].
    + split; reflexivity.
Qed.

(** On a saturated transport the probe of a connected client does not
    return; on a transport that answers it does. *)
Lemma heartbeat_probe_returns_iff_Go_returns_witness :
  let ocs := [CallWithBlock; CallWithHeartbeat "Health.Ping" (50 * Millisecond) None] in
  fst (ping saturated_env (sys_client (dialed saturated_env ocs))
         (sys_world (dialed saturated_env ocs))) = Blocked /\
  fst (ping friendly_env (sys_client (dialed friendly_env ocs))
         (sys_world (dialed friendly_env ocs))) = Returned None.
Proof.
  intros ocs. split.
  - pose proof (heartbeat_probe_returns_iff_Go_returns saturated_env
                  (sys_client (dialed saturated_env ocs))
                  (sys_world (dialed saturated_env ocs))) as H.
    cbv zeta in H. change (getClient (sys_client (dialed saturated_env ocs))) with (Some 0%nat) in H.
    cbv iota beta in H. apply (proj2 (proj2 H)). reflexivity.
  - reflexivity.
Defined.

(** Once closed, a granted close permission stays granted. *)
Lemma step_permission a E s :
  closed (sys_client s) = true ->
  closeCanBeCalled (sys_client s) = true ->
  closeCanBeCalled (sys_client (step E a s)) = true.
Proof.
  intros Hcl Hf. destruct a as [cmd| | |p]; cbn.
  - destruct cmd as [| |m a|ctx m a|m a|ctx m a]; cbn.
    + now rewrite (Reset_closed E _ _ Hcl).
    + unfold Close, getClient. cbn. destruct (client (sys_client s)); [|exact Hf].
      rewrite Hf. cbn. now destruct (rpc_Close E _ _).
    + now destruct (Call E _ _ _ _).
    + now destruct (CallContext E _ _ _ _ _).
    + now destruct (Go E _ _ _ _).
    + now destruct (GoContext E _ _ _ _ _).
  - destruct (connecting s); [|exact Hf]. now rewrite (Reset_closed E _ _ Hcl).
  - destruct (monitoring s); [|exact Hf]. now rewrite (monitor_tick_closed E _ _ Hcl).
  - exact Hf.
Qed.

Lemma run_permission E acts : forall s,
  closed (sys_client s) = true ->
  closeCanBeCalled (sys_client s) = true ->
  closeCanBeCalled (sys_client (run E acts s)) = true.
Proof.
  induction acts as [|a rest IH]; intros s Hcl Hf; [exact Hf|].
  cbn. apply IH; [apply step_closed, Hcl | now apply step_permission].
Qed.

(** Every [Close] after the first returns ErrShutdown: with no session by
    the wrapper's own answer, with a session by the answer of the session,
    which is closing. *)
Theorem later_Close_returns_ErrShutdown (E : Env) (s : System) (acts : list Action) :
  reachable E s ->
  let s2 := run E acts (step E (ActCmd CmdClose) s) in
  fst (fst (Close E (sys_client s2) (sys_world s2))) = Some ErrShutdown.
Proof.
  intros Hreach. cbv zeta.
  set (s1 := step E (ActCmd CmdClose) s). set (s2 := run E acts s1).
  assert (Hr1 : reachable E s1) by now constructor.
  assert (Hcl1 : closed (sys_client s1) = true) by apply step_Close_closed.
  assert (Hf1 : closeCanBeCalled (sys_client s1) = true).
  { pose proof (reachable_inv E s Hreach) as Hinv. subst s1. cbn.
    unfold Close, getClient. cbn.
    destruct (client (sys_client s)) as [p|] eqn:Hp.
    - destruct (closeCanBeCalled (sys_client s)) eqn:Hf; cbn.
      + destruct (rpc_Close E p _). cbn. exact Hf.
      + reflexivity.
    - cbn. destruct (closeCanBeCalled (sys_client s)) eqn:Hf; [reflexivity|].
      destruct (inv_permission _ _ Hinv Hf) as (q & Hq & _). congruence. }
  assert (Hcl2 : closed (sys_client s2) = true) by now apply run_closed.
  assert (Hf2 : closeCanBeCalled (sys_client s2) = true) by now apply run_permission.
  assert (Hinv2 : lifecycle_inv (sys_client s2) (sys_world s2)).
  { apply reachable_inv with (E := E). now apply reachable_run. }
  unfold Close, getClient. cbn.
  destruct (client (sys_client s2)) as [p|] eqn:Hp; [|reflexivity].
  rewrite Hf2. cbn.
  pose proof (inv_closed _ _ Hinv2 Hcl2 p Hp) as Hclosing.
  unfold session_closing in Hclosing. unfold rpc_Close.
  destruct (sessions (sys_world s2) !! p) as [r|]; [|discriminate].
  now rewrite Hclosing.
Qed.

(** Two closes of a connected client: the codec's result, then ErrShutdown. *)
Lemma later_Close_returns_ErrShutdown_witness :
  let E := friendly_env in
  let s := dialed E [CallWithBlock] in
  fst (fst (Close E (sys_client s) (sys_world s))) = None /\
  fst (fst (Close E (sys_client (step E (ActCmd CmdClose) s))
              (sys_world (step E (ActCmd CmdClose) s)))) = Some ErrShutdown.
Proof.
  intros E s. split; [reflexivity|].
  exact (later_Close_returns_ErrShutdown E s [] dialed_friendly_reachable).
Defined.

(** A blocking [Dial] whose first dial fails returns that error and no
    client; nothing but the dial has happened. *)
Theorem blocking_Dial_returns_dial_error (E : Env) (n a : string) (opts : list DialOption)
    (w : World) (derr : error) :
  block (Dial_options n a opts) = true ->
  dial_answer E (length (trace w)) n a (timeout (Dial_options n a opts)) = Some derr ->
  Dial E n a opts w =
    inr (derr, emit (EvDial n a (timeout (Dial_options n a opts)) (30 * Second)) w).
Proof.
  intros Hblock Hdial. unfold Dial. rewrite Hblock.
  destruct (Dial_options_network_address n a opts) as [Hn Ha].
  unfold Reset. cbn. unfold Reset_dial. cbn. rewrite Hn, Ha, Hdial. reflexivity.
Qed.

(** No listener at the address, [WithBlock] given. *)
Lemma blocking_Dial_returns_dial_error_witness :
  Dial refusing_env "tcp" "127.0.0.1:9000" [WithBlock] empty_world =
    inr (OtherError "connection refused",
         mkWorld [] [EvDial "tcp" "127.0.0.1:9000" 0 (30 * Second)]).
Proof.
  exact (blocking_Dial_returns_dial_error refusing_env "tcp" "127.0.0.1:9000" [WithBlock]
           empty_world (OtherError "connection refused") eq_refl eq_refl).
Defined.

(** The probe on a session whose connection is lost returns ErrShutdown. *)
Lemma ping_severed E c w p r :
  getClient c = Some p ->
  sessions w !! p = Some r ->
  shutdown r = true ->
  ping E c w =
    (Returned (Some ErrShutdown), emit (EvGo p (pingServiceMethod (client_dialOptions c)) EmptyStruct) w).
Proof.
  intros Hp Hr Hsh. unfold ping, callContext. rewrite Hp. cbn.
  unfold rpc_Go. rewrite Hr, Hsh, orb_true_r. cbn.
  unfold select_call. cbn.
  destruct (Z.to_N (3 * Second)) eqn:Ht; [discriminate|]. reflexivity.
Qed.

(** Recovery by the heartbeat.  The connection of the session in use is
    lost; the client is not closed and runs the default handler.  The next
    tick's probe returns ErrShutdown, the handler resets the client, and,
    the dial connecting, the client refers to a fresh session.  A call made
    from then on (no interceptor installed) is handed to that session and
    returns what the transport completes it with. *)
Theorem heartbeat_recovers_lost_connection (E : Env) (s : System) (p : nat) (r : rpcClient) :
  reachable E s ->
  let c := sys_client s in
  let w := sys_world s in
  let w1 := snd (ping E c w) in
  closed c = false ->
  getClient c = Some p ->
  sessions w !! p = Some r ->
  shutdown r = true ->
  pingHandler (client_dialOptions c) = Some defaultPingHandler ->
  Reset_reaches_dial E c w1 = true ->
  Reset_dial_answer E c w1 = None ->
  exists c' w',
    monitor_tick E c w = TickHandled c' w' /\
    getClient c' = Some (length (sessions w)) /\
    closed c' = false /\
    (callInterceptor (client_dialOptions c) = None ->
     forall m a,
       Call E c' m a w' =
         (match round_trip E (length (trace w')) (length (sessions w)) m a with
          | Some (_, err) => Returned err
          | None => Blocked
          end,
          emit (EvGo (length (sessions w)) m a) w')).
Proof.
  intros Hreach c w w1 Hcl Hp Hr Hsh Hh Hreaches Hanswer.
  pose proof (ping_severed E c w p r Hp Hr Hsh) as Hping.
  assert (Hw1 : w1 = emit (EvGo p (pingServiceMethod (client_dialOptions c)) EmptyStruct) w).
  { subst w1. now rewrite Hping. }
  destruct (Reset E c w1) as [[rerr c'] w'] eqn:HReset.
  assert (Hnone : rerr = None).
  { revert HReset Hreaches Hanswer. unfold Reset, Reset_reaches_dial, Reset_dial_answer, world_at_dial.
    rewrite Hcl, Hp. cbn [negb andb].
    destruct (rpc_Close E p w1) as [[e|] w2]; cbn [fst snd].
    - intros H Htol Hd. rewrite Htol in H. unfold Reset_dial in H. cbn in H.
      rewrite Hd in H. cbn in H. congruence.
    - intros H _ Hd. unfold Reset_dial in H. cbn in H.
      rewrite Hd in H. cbn in H. congruence. }
  subst rerr.
  destruct (Reset_success E _ _ _ _ HReset) as (_ & _ & Hc' & Hs).
  destruct (Reset_fields E _ _ _ _ _ HReset) as [Hcl' Ho'].
  assert (Hlen1 : length (sessions w1) = length (sessions w)) by now rewrite Hw1.
  exists c', w'. split; [|split; [|split]].
  - unfold monitor_tick. fold c w. rewrite Hcl, Hping, Hh. cbn.
    rewrite <- Hw1, HReset. reflexivity.
  - rewrite Hc'. cbn. now rewrite Hlen1.
  - congruence.
  - intros Hi m a. unfold Call, CallContext. rewrite Ho', Hi.
    unfold callContext. rewrite Hc'. cbn [getClient setClient client is_Background].
    rewrite Hlen1. unfold rpc_Go.
    assert (Hfresh : sessions w' !! length (sessions w) = Some (mkRpcClient false false)).
    { rewrite Hs. pose proof (world_at_dial_length E c w1) as Hl.
      rewrite lookup_app_r by lia. rewrite Hl, Hlen1, Nat.sub_diag. reflexivity. }
    rewrite Hfresh. cbn. unfold await.
    destruct (round_trip E _ _ m a) as [[d err]|]; [reflexivity|].
    now destruct (send_blocks E _ _).
Qed.

(** A connected client with a heartbeat loses its connection; the next tick
    reconnects it, and a call reaches the new session. *)
Lemma heartbeat_recovers_lost_connection_witness :
  let E := friendly_env in
  let s := step E (ActSever 0)
             (dialed E [CallWithBlock; CallWithHeartbeat "Health.Ping" (50 * Millisecond) None]) in
  let s' := step E ActTick s in
  getClient (sys_client s') = Some 1%nat /\
  fst (Call E (sys_client s') "Arith.Add" (Data "1,2") (sys_world s')) = Returned None.
Proof.
  intros E s s'.
  assert (Hreach : reachable E s).
  { apply reachable_step. eapply dialed_reachable. reflexivity. }
  destruct (heartbeat_recovers_lost_connection E s 0 (mkRpcClient false true) Hreach
              eq_refl eq_refl eq_refl eq_refl eq_refl eq_refl eq_refl)
    as (c' & w' & Htick & Hptr & _ & Hcall).
  assert (Hs' : sys_client s' = c' /\ sys_world s' = w').
  { subst s'. cbn [step]. change (monitoring s) with true. cbv iota.
    rewrite Htick. cbn. auto. }
  destruct Hs' as [-> ->]. split; [exact Hptr|].
  rewrite (Hcall eq_refl "Arith.Add" (Data "1,2")). reflexivity.
Defined.

(** * Properties of the rest of the code *)

(** ** What every step preserves *)

Section Preservation.

Variable E : Env.
Variable P : Client -> World -> Prop.

Hypothesis P_extends : forall c w w', P c w -> extends w w' -> P c w'.
Hypothesis P_Reset : forall c w err c' w', P c w -> Reset E c w = (err, c', w') -> P c' w'.
Hypothesis P_Close : forall c w err c' w', P c w -> Close E c w = (err, c', w') -> P c' w'.
Hypothesis P_sever : forall c w p, P c w -> P c (sever p w).

Lemma run_cmd_preserves cmd c w r c' w' :
  P c w -> run_cmd E cmd c w = (r, c', w') -> P c' w'.
Proof.
  intros HP. destruct cmd as [| |m a|ctx m a|m a|ctx m a]; cbn.
  - destruct (Reset E c w) as [[err c1] w1] eqn:H. intros [= <- <- <-]. eauto.
  - destruct (Close E c w) as [[err c1] w1] eqn:H. intros [= <- <- <-]. eauto.
  - pose proof (CallContext_extends E c Background m a w) as H. unfold Call.
    destruct (CallContext E c Background m a w). intros [= <- <- <-]. eauto.
  - pose proof (CallContext_extends E c ctx m a w) as H.
    destruct (CallContext E c ctx m a w). intros [= <- <- <-]. eauto.
  - pose proof (GoContext_extends E c Background m a w) as H. unfold Go.
    destruct (GoContext E c Background m a w). intros [= <- <- <-]. eauto.
  - pose proof (GoContext_extends E c ctx m a w) as H.
    destruct (GoContext E c ctx m a w). intros [= <- <- <-]. eauto.
Qed.

Lemma run_cmds_preserves cmds : forall c w c' w',
  P c w -> run_cmds E cmds c w = (c', w') -> P c' w'.
Proof.
  induction cmds as [|cmd rest IH]; intros c w c' w' HP; cbn.
  - now intros [= <- <-].
  - destruct (run_cmd E cmd c w) as [[r c1] w1] eqn:H1.
    pose proof (run_cmd_preserves _ _ _ _ _ _ HP H1) as HP1.
    destruct (returned r); [|now intros [= <- <-]].
    intros H2. eapply IH; [exact HP1 | exact H2].
Qed.

Lemma run_pingHandler_preserves h result c w c' w' :
  P c w -> run_pingHandler E h result c w = (c', w') -> P c' w'.
Proof.
  intros HP. destruct h as [|body]; cbn; [|now apply run_cmds_preserves].
  unfold defaultPingHandler_run. destruct result as [e|]; [|now intros [= <- <-]].
  destruct (is_ErrShutdown e); cbn.
  - destruct (Reset E c w) as [[[err|] c1] w1] eqn:H; intros [= <- <-].
    + eapply P_extends; [eapply P_Reset; eauto | apply Errorf_extends].
    + eapply P_Reset; eauto.
  - intros [= <- <-]. eapply P_extends; [exact HP | apply Errorf_extends].
Qed.

Lemma step_preserves a s :
  P (sys_client s) (sys_world s) ->
  P (sys_client (step E a s)) (sys_world (step E a s)).
Proof.
  intros HP. destruct a as [cmd| | |p]; cbn.
  - destruct (run_cmd E cmd _ _) as [[r c1] w1] eqn:H. cbn.
    eapply run_cmd_preserves; eauto.
  - destruct (connecting s); [|exact HP].
    destruct (Reset E _ _) as [[[err|] c1] w1] eqn:H; cbn.
    + eapply P_extends; [eapply P_Reset; eauto | apply Errorf_extends].
    + eapply P_Reset; eauto.
  - destruct (monitoring s); [|exact HP].
    unfold monitor_tick. destruct (closed _); [exact HP|].
    pose proof (ping_extends E (sys_client s) (sys_world s)) as L.
    destruct (ping E _ _) as [[err|] w1]; cbn in L |- *.
    + destruct (pingHandler _) as [h|]; cbn.
      * destruct (run_pingHandler E h err _ w1) as [c2 w2] eqn:H.
        assert (HP2 : P c2 w2).
        { eapply run_pingHandler_preserves; [|exact H]. eauto. }
        destruct (pingHandler_returns _ _ _ _ _); exact HP2.
      * eauto.
    + eauto.
  - now apply P_sever.
Qed.

Lemma run_preserves acts : forall s,
  P (sys_client s) (sys_world s) ->
  P (sys_client (run E acts s)) (sys_world (run E acts s)).
Proof.
  induction acts as [|a rest IH]; intros s HP; [exact HP|].
  cbn. apply IH. now apply step_preserves.
Qed.

Lemma Dial_preserves n a opts w s :
  P (mkClient None true false (Dial_options n a opts)) w ->
  Dial E n a opts w = inl s ->
  P (sys_client s) (sys_world s).
Proof.
  intros HP. unfold Dial. destruct (block _).
  - destruct (Reset E _ w) as [[[err|] c1] w1] eqn:H; [discriminate|].
    intros [= <-]. cbn. eapply P_Reset; eauto.
  - now intros [= <-].
Qed.

End Preservation.

(** ** The options are fixed by [Dial] *)

Lemma run_options E o acts s :
  client_dialOptions (sys_client s) = o ->
  client_dialOptions (sys_client (run E acts s)) = o.
Proof.
  intros H.
  apply (run_preserves E (fun c _ => client_dialOptions c = o)); try assumption.
  - auto.
  - intros c w err c' w' Hc HR. apply Reset_fields in HR as [_ HR]. congruence.
  - intros c w err c' w' Hc HC. apply Close_fields in HC as (_ & _ & HC & _). congruence.
  - auto.
Qed.

Lemma Dial_client_options E n a opts w s :
  Dial E n a opts w = inl s -> client_dialOptions (sys_client s) = Dial_options n a opts.
Proof.
  apply (Dial_preserves E (fun c _ => client_dialOptions c = Dial_options n a opts)).
  - intros c w0 err c' w' Hc HR. apply Reset_fields in HR as [_ HR]. congruence.
  - reflexivity.
Qed.

(** Whatever options are passed and whatever happens to the client after
    [Dial], its options stay those [Dial] computed: [RemoteAddress] returns
    the address given to [Dial] (no option overrides it, the address is
    applied last), the network is the one given, and the logger is never
    nil, so errors of the background connect and of the heartbeat are always
    logged. *)
Theorem dialed_options_never_change (E : Env) (n a : string) (opts : list DialOption)
    (w : World) (s0 : System) (acts : list Action) :
  Dial E n a opts w = inl s0 ->
  let c := sys_client (run E acts s0) in
  client_dialOptions c = Dial_options n a opts /\
  RemoteAddress c = a /\
  network (client_dialOptions c) = n /\
  (exists l, logger (client_dialOptions c) = Some l /\
     forall format err w', Errorf c format err w' = emit (EvErrorf l format err) w').
Proof.
  intros HD. cbv zeta.
  pose proof (run_options E _ acts s0 (Dial_client_options E n a opts w s0 HD)) as Ho.
  destruct (Dial_options_network_address n a opts) as [Hn Ha].
  split; [exact Ho|]. unfold RemoteAddress. rewrite Ho.
  split; [exact Ha|]. split; [exact Hn|].
  destruct (logger (Dial_options n a opts)) as [l|] eqn:Hl.
  - exists l. split; [reflexivity|]. intros. unfold Errorf. now rewrite Ho, Hl.
  - now apply Dial_logger in Hl.
Qed.

(** An option list that tries to leave the logger nil, a client that is
    reset and closed: the address and the default logger are still there. *)
Lemma dialed_options_never_change_witness :
  let E := friendly_env in
  let s := run E [ActCmd CmdReset; ActCmd CmdClose]
             (dialed E [CallWithLogger None; CallWithBlock]) in
  RemoteAddress (sys_client s) = "127.0.0.1:9000" /\
  logger (client_dialOptions (sys_client s)) = Some defaultLogger.
Proof.
  intros E s.
  destruct (dialed_options_never_change E "tcp" "127.0.0.1:9000"
              (map option_of [CallWithLogger None; CallWithBlock]) empty_world
              (dialed E [CallWithLogger None; CallWithBlock])
              [ActCmd CmdReset; ActCmd CmdClose] eq_refl) as (_ & Ha & _ & _).
  split; [exact Ha | reflexivity].
Defined.

(** ** When the monitor runs *)

Lemma heartbeat_ok_option oc o : heartbeat_ok o -> heartbeat_ok (option_of oc o).
Proof.
  intros H. destruct oc as [d| |[l|]|m i h|[i|]|[i|]]; try exact H.
  cbn. unfold WithHeartbeat. destruct (String.eqb m "") eqn:Hm; [exact H|].
  unfold heartbeat_ok. cbn. rewrite Hm. split.
  - destruct (Z.leb_spec i 0); [reflexivity | assumption].
  - destruct h; discriminate.
Qed.

Lemma heartbeat_ok_apply ocs : forall o,
  heartbeat_ok o -> heartbeat_ok (apply_options (map option_of ocs) o).
Proof.
  induction ocs as [|oc rest IH]; intros o H; [exact H|].
  cbn [map]. rewrite apply_options_cons. apply IH. now apply heartbeat_ok_option.
Qed.

Lemma heartbeat_ok_Dial_options n a ocs : heartbeat_ok (Dial_options n a (map option_of ocs)).
Proof.
  assert (H : heartbeat_ok (apply_options (map option_of ocs) zero_dialOptions)).
  { apply heartbeat_ok_apply. unfold heartbeat_ok. cbn. auto. }
  unfold Dial_options. rewrite apply_options_app. cbn.
  destruct (logger _); exact H.
Qed.

Lemma pingServiceMethod_apply_options ocs : forall o,
  String.eqb (pingServiceMethod (apply_options (map option_of ocs) o)) "" =
  match last_heartbeat ocs with
  | Some _ => false
  | None => String.eqb (pingServiceMethod o) ""
  end.
Proof.
  induction ocs as [|oc rest IH]; intros o; [reflexivity|].
  cbn [map last_heartbeat]. rewrite apply_options_cons, IH.
  destruct (last_heartbeat rest); [reflexivity|].
  destruct oc as [d| |[l|]|m i h|[i|]|[i|]]; cbn; try reflexivity.
  unfold WithHeartbeat. destruct (String.eqb m "") eqn:Hm; [reflexivity|].
  cbn. exact Hm.
Qed.

(** [Dial] starts the monitor exactly when some [WithHeartbeat] with a
    non-empty method name was given (one with an empty name changes
    nothing).  Then the interval handed to the ticker is positive and the
    handler is not nil, whatever interval and handler were passed. *)
Theorem monitor_runs_iff_heartbeat_named (E : Env) (n a : string) (ocs : list OptionCall)
    (w : World) (s0 : System) :
  Dial E n a (map option_of ocs) w = inl s0 ->
  let o := client_dialOptions (sys_client s0) in
  monitoring s0 = match last_heartbeat ocs with Some _ => true | None => false end /\
  (monitoring s0 = true -> 0 < pingInterval o /\ pingHandler o <> None).
Proof.
  intros HD. cbv zeta.
  rewrite (Dial_client_options E _ _ _ _ _ HD).
  pose proof (heartbeat_ok_Dial_options n a ocs) as Hok.
  assert (Hm : String.eqb (pingServiceMethod (Dial_options n a (map option_of ocs))) "" =
               match last_heartbeat ocs with Some _ => false | None => true end).
  { unfold Dial_options. rewrite apply_options_app. cbn.
    destruct (logger _); cbn; apply pingServiceMethod_apply_options. }
  assert (Hmon : monitoring s0 = starts_monitor (Dial_options n a (map option_of ocs))).
  { revert HD. unfold Dial. destruct (block _).
    - destruct (Reset E _ w) as [[[err|] c1] w1]; [discriminate|]. now intros [= <-].
    - now intros [= <-]. }
  unfold heartbeat_ok in Hok. unfold starts_monitor in Hmon. rewrite Hm in Hok, Hmon.
  destruct (last_heartbeat ocs).
  - destruct Hok as [Hpos Hh]. cbn in Hmon.
    destruct (Z.ltb_spec 0 (pingInterval (Dial_options n a (map option_of ocs)))); [|lia].
    split; [exact Hmon | auto].
  - cbn in Hmon. split; [exact Hmon|]. rewrite Hmon. discriminate.
Qed.

(** A heartbeat given with a zero interval and no handler, followed by one
    with an empty method name. *)
Lemma monitor_runs_iff_heartbeat_named_witness :
  let E := friendly_env in
  let ocs := [CallWithHeartbeat "Health.Ping" 0 None; CallWithHeartbeat "" Second None] in
  monitoring (dialed E ocs) = true /\
  0 < pingInterval (client_dialOptions (sys_client (dialed E ocs))) /\
  monitoring (dialed E [CallWithHeartbeat "" Second None]) = false.
Proof.
  intros E ocs.
  destruct (monitor_runs_iff_heartbeat_named E "tcp" "127.0.0.1:9000" ocs empty_world
              (dialed E ocs) eq_refl) as [H1 H2].
  split; [exact H1|]. split; [exact (proj1 (H2 H1)) | reflexivity].
Defined.

(** No piece of the monitor and no method changes the options. *)
Lemma fine_step_options E o a f :
  client_dialOptions (sys_client (sys f)) = o ->
  client_dialOptions (sys_client (sys (fine_step E a f))) = o.
Proof.
  intros H.
  set (P := fun (c : Client) (_ : World) => client_dialOptions c = o).
  assert (P1 : forall c w w', P c w -> extends w w' -> P c w') by auto.
  assert (P2 : forall c w err c' w', P c w -> Reset E c w = (err, c', w') -> P c' w').
  { intros c w err c' w' Hc HR. apply Reset_fields in HR as [_ HR]. unfold P in *. congruence. }
  assert (P3 : forall c w err c' w', P c w -> Close E c w = (err, c', w') -> P c' w').
  { intros c w err c' w' Hc HC. apply Close_fields in HC as (_ & _ & HC & _).
    unfold P in *. congruence. }
  assert (P4 : forall c w p, P c w -> P c (sever p w)) by auto.
  destruct a as [cmd| |p| | |]; cbn [fine_step sys].
  - now apply (step_preserves E P P1 P2 P3 P4).
  - now apply (step_preserves E P P1 P2 P3 P4).
  - now apply (step_preserves E P P1 P2 P3 P4).
  - destruct (phase f); try exact H.
    destruct (monitoring (sys f)); [|exact H]. now destruct (closed _).
  - destruct (phase f); try exact H. now destruct (ping E _ _) as [[err|] w1].
  - destruct (phase f) as [| |err|[|cmd rest]| |]; try exact H.
    + destruct (pingHandler _) as [[|body]|]; try exact H.
      destruct (defaultPingHandler_run E err _ _) as [c2 w2] eqn:Hr. cbn.
      change (run_pingHandler E defaultPingHandler err (sys_client (sys f))
                (sys_world (sys f)) = (c2, w2)) in Hr.
      eapply (run_pingHandler_preserves E P); eauto.
    + destruct (run_cmd E cmd _ _) as [[r c1] w1] eqn:Hr. cbn.
      eapply (run_cmd_preserves E P); eauto.
Qed.

(** With a handler configured, the monitor never calls a nil one. *)
Lemma fine_run_no_panic E o acts : forall f,
  pingHandler o <> None ->
  client_dialOptions (sys_client (sys f)) = o ->
  phase f <> Panicked ->
  phase (fine_run E acts f) <> Panicked.
Proof.
  induction acts as [|a rest IH]; intros f Hh Ho Hph; [exact Hph|].
  cbn. apply IH; [exact Hh | now apply fine_step_options|].
  destruct a as [cmd| |p| | |]; cbn [fine_step phase]; try exact Hph.
  - destruct (phase f) eqn:Hp; try congruence.
    destruct (monitoring (sys f)); [|congruence]. destruct (closed _); discriminate.
  - destruct (phase f) eqn:Hp; try congruence.
    destruct (ping E _ _) as [[err|] w1]; discriminate.
  - destruct (phase f) as [| |err|[|cmd rest']| |] eqn:Hp; try congruence; try discriminate.
    + rewrite Ho. destruct (pingHandler o) as [[|body]|]; [|discriminate|congruence].
      now destruct (defaultPingHandler_run E err _ _).
    + destruct (run_cmd E cmd _ _) as [[r c1] w1]. cbn. now destruct (returned r).
Qed.

(** The monitor [Dial] starts has a handler. *)
Lemma Dial_monitor_handler E n a ocs w s0 :
  Dial E n a (map option_of ocs) w = inl s0 ->
  monitoring s0 = true ->
  pingHandler (client_dialOptions (sys_client s0)) <> None.
Proof.
  intros HD Hmon. rewrite (Dial_client_options E _ _ _ _ _ HD).
  pose proof (heartbeat_ok_Dial_options n a ocs) as Hok.
  assert (Hmon' : monitoring s0 = starts_monitor (Dial_options n a (map option_of ocs))).
  { revert HD. unfold Dial. destruct (block _).
    - destruct (Reset E _ w) as [[[err|] c1] w1]; [discriminate|]. now intros [= <-].
    - now intros [= <-]. }
  rewrite Hmon in Hmon'. unfold starts_monitor in Hmon'. unfold heartbeat_ok in Hok.
  destruct (String.eqb _ ""); [discriminate | apply Hok].
Qed.

(** The monitor of a dialed client, taken piece by piece, in any state it
    and the client reach.  It never calls a nil handler.  It returns only at
    a tick that finds the client closed.  And it is held up for ever only in
    a probe whose Go on the session never returns, or in a method that a
    handler of the caller invoked and that never returns. *)
Theorem monitor_returns_only_when_closed (E : Env) (n a : string) (ocs : list OptionCall)
    (w0 : World) (s0 : System) (acts : list FineAction) (act : FineAction) :
  Dial E n a (map option_of ocs) w0 = inl s0 ->
  let f := fine_run E acts (mkMonitored s0 Waiting) in
  let c := sys_client (sys f) in
  let w := sys_world (sys f) in
  phase f <> Panicked /\
  (monitoring (sys f) = true -> monitoring (sys (fine_step E act f)) = false ->
   act = FTick /\ phase f = Waiting /\ closed c = true) /\
  (phase f <> Stuck -> phase (fine_step E act f) = Stuck ->
   (act = FProbe /\ phase f = Checked /\
    exists p, getClient c = Some p /\
      fst (rpc_Go E p (pingServiceMethod (client_dialOptions c)) EmptyStruct w) = None) \/
   (act = FHandle /\
    exists cmd rest, phase f = Handling (cmd :: rest) /\
      returned (fst (fst (run_cmd E cmd c w))) = false)).
Proof.
  intros HD. cbv zeta. set (f := fine_run E acts (mkMonitored s0 Waiting)).
  split; [|split].
  - destruct (monitoring s0) eqn:Hm0.
    + apply fine_run_no_panic with (o := client_dialOptions (sys_client s0));
        [now apply (Dial_monitor_handler E n a ocs w0) | reflexivity | discriminate].
    + destruct (fine_run_gone E acts (mkMonitored s0 Waiting) Hm0 eq_refl) as [_ Hph].
      fold f in Hph. rewrite Hph. discriminate.
  - intros Hm. destruct act as [cmd| |p| | |]; cbn [fine_step sys].
    + cbn. destruct (run_cmd E cmd _ _) as [[r c1] w1]. cbn. congruence.
    + cbn. destruct (connecting (sys f)); [|congruence].
      destruct (Reset E _ _) as [[[e|] c1] w1]; cbn; congruence.
    + cbn. congruence.
    + destruct (phase f); try congruence. rewrite Hm.
      destruct (closed _); [auto | cbn; congruence].
    + destruct (phase f); try congruence.
      destruct (ping E _ _) as [[err|] w1]; cbn; congruence.
    + destruct (phase f) as [| |err|[|cmd rest]| |]; try (cbn; congruence).
      * destruct (pingHandler _) as [[|body]|]; try (cbn; congruence).
        destruct (defaultPingHandler_run E err _ _) as [c2 w2]. cbn. congruence.
      * destruct (run_cmd E cmd _ _) as [[r c1] w1]. cbn. congruence.
  - intros Hns. destruct act as [cmd| |p| | |]; cbn [fine_step phase]; try congruence.
    + destruct (phase f) eqn:Hph; try (intros; congruence).
      destruct (monitoring (sys f)); [|intros; congruence]. destruct (closed _); discriminate.
    + destruct (phase f) eqn:Hph; try (intros; congruence).
      pose proof (ping_outcome E (sys_client (sys f)) (sys_world (sys f))) as Hout.
      destruct (ping E _ _) as [[err|] w1] eqn:Hping; [discriminate|]. intros _. left.
      split; [reflexivity|]. split; [reflexivity|].
      destruct (getClient (sys_client (sys f))) as [p|]; [|discriminate].
      exists p. split; [reflexivity|]. destruct Hout as [_ Hout].
      destruct (fst (rpc_Go E p _ EmptyStruct _)); [|reflexivity].
      destruct Hout as [err Herr]. discriminate.
    + destruct (phase f) as [| |err|[|cmd rest]| |] eqn:Hph;
        try (intros; congruence); try discriminate.
      * destruct (pingHandler _) as [[|body]|]; try discriminate.
        now destruct (defaultPingHandler_run E err _ _).
      * destruct (run_cmd E cmd _ _) as [[r c1] w1] eqn:Hr. cbn.
        destruct (returned r) eqn:Hret; [discriminate|]. intros _. right.
        split; [reflexivity|]. exists cmd, rest. split; [reflexivity|]. now rewrite Hr.
Qed.

(** A client with a heartbeat.  On a transport that answers, a tick, the
    probe and the handler leave the monitor running, and the tick after
    [Close] ends it.  On a saturated transport the probe holds the monitor
    up, in Go. *)
Lemma monitor_returns_only_when_closed_witness :
  let ocs := [CallWithBlock; CallWithHeartbeat "Health.Ping" 0 None] in
  let f := mkMonitored (dialed friendly_env ocs) Waiting in
  let g := mkMonitored (dialed saturated_env ocs) Waiting in
  monitoring (sys (fine_run friendly_env [FTick; FProbe; FHandle] f)) = true /\
  monitoring (sys (fine_run friendly_env [FCmd CmdClose; FTick] f)) = false /\
  phase (fine_run saturated_env [FTick; FProbe] g) = Stuck /\
  fst (rpc_Go saturated_env 0 "Health.Ping" EmptyStruct (sys_world (sys g))) = None.
Proof.
  intros ocs f g. split; [reflexivity|]. split; [reflexivity|]. split; [reflexivity|].
  destruct (monitor_returns_only_when_closed saturated_env "tcp" "127.0.0.1:9000" ocs
              empty_world (dialed saturated_env ocs) [FTick] FProbe eq_refl)
    as (_ & _ & Hstuck).
  destruct (Hstuck ltac:(discriminate) eq_refl) as [(_ & _ & p & Hp & HGo)|(H & _)];
    [|discriminate H].
  injection Hp as <-. exact HGo.
Defined.

(** ** Sessions in use and sessions left behind *)

Lemma session_closing_sever q w p : session_closing (sever q w) p = session_closing w p.
Proof.
  unfold sever, session_closing. destruct (sessions w !! q) as [r|] eqn:Hq; [|reflexivity].
  cbn. destruct (decide (q = p)) as [->|Hne].
  - rewrite list_lookup_insert_eq by (eapply lookup_lt_Some; eauto). now rewrite Hq.
  - now rewrite list_lookup_insert_ne.
Qed.

Lemma Close_le E c w : world_le w (snd (Close E c w)).
Proof.
  unfold Close. cbn. destruct (client c) as [p|]; [|apply world_le_refl].
  destruct (closeCanBeCalled c); cbn; [|apply world_le_refl].
  pose proof (rpc_Close_le E p w) as H. now destruct (rpc_Close E p w).
Qed.

Lemma Reset_dial_le E c w : world_le w (snd (Reset_dial E c w)).
Proof.
  unfold Reset_dial. destruct (dial_answer _ _ _ _ _); cbn; [apply emit_le|].
  eapply world_le_trans; [apply emit_le | apply (rpc_NewClient_le (emit _ w))].
Qed.

Lemma Reset_le E c w : world_le w (snd (Reset E c w)).
Proof.
  unfold Reset. destruct (closed c); [apply world_le_refl|].
  destruct (getClient c) as [p|]; [|apply Reset_dial_le].
  pose proof (rpc_Close_le E p w) as H.
  destruct (rpc_Close E p w) as [[e|] w1]; cbn in H.
  - destruct (is_ErrShutdown e); [|exact H].
    eapply world_le_trans; [exact H | apply Reset_dial_le].
  - eapply world_le_trans; [exact H | apply Reset_dial_le].
Qed.

(** What a failed [Reset] leaves: the pointer and the number of sessions are
    unchanged; either nothing happened at all (the client was closed), or
    the permission is withdrawn, or no session was held. *)
Lemma Reset_failure E c w e c' w' :
  Reset E c w = (Some e, c', w') ->
  client c' = client c /\
  length (sessions w') = length (sessions w) /\
  ((closed c = true /\ c' = c /\ w' = w) \/ closeCanBeCalled c' = false \/ client c = None).
Proof.
  unfold Reset. destruct (closed c) eqn:Hcl.
  { intros [= <- <- <-]. split; [reflexivity|]. split; [reflexivity|]. left. auto. }
  assert (Hdial : forall c0 w0, Reset_dial E c0 w0 = (Some e, c', w') ->
            c' = c0 /\ length (sessions w') = length (sessions w0)).
  { intros c0 w0. unfold Reset_dial. destruct (dial_answer _ _ _ _ _); [|discriminate].
    intros [= <- <- <-]. auto. }
  destruct (getClient c) as [p|] eqn:Hp.
  - pose proof (rpc_Close_length E p w) as Hlen.
    destruct (rpc_Close E p w) as [[e0|] w1]; cbn in Hlen.
    + destruct (is_ErrShutdown e0).
      * intros H. destruct (Hdial _ _ H) as [-> Hl]. cbn. repeat split; [congruence | auto].
      * intros [= <- <- <-]. cbn. auto.
    + intros H. destruct (Hdial _ _ H) as [-> Hl]. cbn. repeat split; [congruence | auto].
  - intros H. destruct (Hdial _ _ H) as [-> Hl]. auto.
Qed.

Lemma Reset_keeps_session_in_use_open E c w err c' w' :
  session_in_use_open c w -> Reset E c w = (err, c', w') -> session_in_use_open c' w'.
Proof.
  intros HP HR. destruct err as [e|].
  - destruct (Reset_failure E _ _ _ _ _ HR) as (Hptr & _ & [(Hcl & -> & ->)|[Hf|Hnil]]).
    + exact HP.
    + intros _ Hf'. congruence.
    + intros _ _ p Hp. congruence.
  - destruct (Reset_success E _ _ _ _ HR) as (_ & _ & -> & Hs).
    pose proof (world_at_dial_length E c w) as Hlen.
    intros _ _ p [= <-]. unfold session_closing. rewrite Hs.
    rewrite lookup_app_r by lia. rewrite Hlen, Nat.sub_diag. reflexivity.
Qed.

Lemma reachable_session_in_use_open E s :
  reachable E s -> session_in_use_open (sys_client s) (sys_world s).
Proof.
  assert (Hext : forall c w w', session_in_use_open c w -> extends w w' ->
                                session_in_use_open c w').
  { intros c w w' HP [Hs _] Hcl Hf p Hp. unfold session_closing. rewrite Hs.
    now apply HP. }
  assert (HClose : forall c w err c' w', session_in_use_open c w ->
                     Close E c w = (err, c', w') -> session_in_use_open c' w').
  { intros c w err c' w' _ HC Hcl. apply Close_fields in HC as [HC _]. congruence. }
  assert (Hsev : forall c w p, session_in_use_open c w -> session_in_use_open c (sever p w)).
  { intros c w q HP Hcl Hf p Hp. rewrite session_closing_sever. now apply HP. }
  induction 1 as [n a opts w s H|a s _ IH].
  - eapply (Dial_preserves E session_in_use_open); eauto.
    + apply Reset_keeps_session_in_use_open.
    + intros _ _ p. discriminate.
  - apply (step_preserves E session_in_use_open); auto.
    apply Reset_keeps_session_in_use_open.
Qed.

(** No spurious shutdown.  On a dialed client that is open and has the
    close permission, the session in use is in the heap and not closing.
    Unless its connection has been lost, a call under the background token
    is handed to it and returns exactly what the transport completes it
    with; ErrShutdown is returned only when the transport says so. *)
Theorem open_client_calls_reach_the_transport (E : Env) (s : System) (p : nat) :
  reachable E s ->
  closed (sys_client s) = false ->
  closeCanBeCalled (sys_client s) = true ->
  getClient (sys_client s) = Some p ->
  exists r,
    sessions (sys_world s) !! p = Some r /\
    closing r = false /\
    (shutdown r = false ->
     forall m a,
       callContext E (sys_client s) Background m a (sys_world s) =
         (match round_trip E (length (trace (sys_world s))) p m a with
          | Some (_, err) => Returned err
          | None => Blocked
          end,
          emit (EvGo p m a) (sys_world s))).
Proof.
  intros Hreach Hcl Hf Hp.
  pose proof (reachable_inv E s Hreach) as Hinv.
  pose proof (reachable_session_in_use_open E s Hreach Hcl Hf p Hp) as Hopen.
  destruct (lookup_lt_is_Some_2 _ _ (inv_valid _ _ Hinv p Hp)) as [r Hr].
  exists r. unfold session_closing in Hopen. rewrite Hr in Hopen.
  split; [exact Hr|]. split; [exact Hopen|].
  intros Hsh m a. unfold callContext. rewrite Hp. cbn. unfold rpc_Go.
  rewrite Hr, Hopen, Hsh. cbn. unfold await.
  destruct (round_trip E _ p m a) as [[d err]|]; [reflexivity|].
  now destruct (send_blocks E _ p).
Qed.

(** A connected client on a server that answers. *)
Lemma open_client_calls_reach_the_transport_witness :
  let E := friendly_env in
  let s := dialed E [CallWithBlock] in
  fst (callContext E (sys_client s) Background "Arith.Add" (Data "1,2") (sys_world s)) =
    Returned None.
Proof.
  intros E s.
  destruct (open_client_calls_reach_the_transport E s 0 dialed_friendly_reachable
              eq_refl eq_refl eq_refl) as (r & Hr & _ & Hcall).
  assert (Hsh : shutdown r = false) by (injection Hr as <-; reflexivity).
  rewrite (Hcall Hsh "Arith.Add" (Data "1,2")). reflexivity.
Defined.

Lemma Reset_keeps_at_most_one_open E n0 c w err c' w' :
  at_most_one_open n0 c w -> Reset E c w = (err, c', w') -> at_most_one_open n0 c' w'.
Proof.
  intros (Hn & Hv & Hcl) HR.
  pose proof (Reset_le E c w) as Hle. rewrite HR in Hle. cbn in Hle.
  destruct err as [e|].
  - destruct (Reset_failure E _ _ _ _ _ HR) as (Hptr & Hlen & _).
    split; [lia|]. split.
    + intros p Hp. rewrite Hlen. apply Hv. congruence.
    + intros p Hr Hne. rewrite Hlen in Hr. apply (le_closing _ _ Hle).
      apply Hcl; [exact Hr | congruence].
  - destruct (Reset_success E _ _ _ _ HR) as (_ & _ & -> & Hs).
    pose proof (world_at_dial_length E c w) as Hlen.
    assert (Hlen' : length (sessions w') = S (length (sessions w))).
    { rewrite Hs, length_app. cbn. lia. }
    split; [lia|]. split.
    + intros p [= <-]. lia.
    + intros p Hr Hne. cbn in Hne. rewrite Hlen' in Hr.
      assert (Hlt : (p < length (sessions w))%nat).
      { destruct (Nat.eq_dec p (length (sessions w))) as [->|]; [congruence | lia]. }
      destruct (decide (client c = Some p)) as [Hp|Hp].
      * assert (Hmid : session_closing (world_at_dial E c w) p = true).
        { unfold world_at_dial, getClient. rewrite Hp.
          apply rpc_Close_closing. exact Hlt. }
        unfold session_closing in *. rewrite Hs.
        destruct (sessions (world_at_dial E c w) !! p) as [r|] eqn:Hr'; [|discriminate].
        now rewrite (lookup_app_l_Some _ _ _ _ Hr').
      * apply (le_closing _ _ Hle). apply Hcl; [lia | exact Hp].
Qed.

(** No session is left open behind.  Of the sessions created since [Dial],
    the client refers to one at most, and every other one has been closed:
    a reset closes the session it replaces before it dials, so at most one
    session per client is open at any time. *)
Theorem at_most_one_session_open (E : Env) (n a : string) (opts : list DialOption)
    (w0 : World) (s0 : System) (acts : list Action) :
  Dial E n a opts w0 = inl s0 ->
  let s := run E acts s0 in
  (forall p, getClient (sys_client s) = Some p ->
     (length (sessions w0) <= p < length (sessions (sys_world s)))%nat) /\
  (forall p, (length (sessions w0) <= p < length (sessions (sys_world s)))%nat ->
     getClient (sys_client s) <> Some p ->
     session_closing (sys_world s) p = true).
Proof.
  intros HD. cbv zeta.
  set (n0 := length (sessions w0)).
  assert (Hext : forall c w w', at_most_one_open n0 c w -> extends w w' ->
                                at_most_one_open n0 c w').
  { intros c w w' (Hn & Hv & Hcl) [Hs _]. unfold at_most_one_open, session_closing.
    rewrite Hs. auto. }
  assert (HClose : forall c w err c' w', at_most_one_open n0 c w ->
                     Close E c w = (err, c', w') -> at_most_one_open n0 c' w').
  { intros c w err c' w' (Hn & Hv & Hcl) HC.
    pose proof (Close_le E c w) as Hle. rewrite HC in Hle. cbn in Hle.
    apply Close_fields in HC as (_ & Hptr & _ & Hlen).
    unfold at_most_one_open. rewrite Hlen, Hptr.
    split; [exact Hn|]. split; [exact Hv|].
    intros p Hr Hne. apply (le_closing _ _ Hle). now apply Hcl. }
  assert (Hsev : forall c w p, at_most_one_open n0 c w -> at_most_one_open n0 c (sever p w)).
  { intros c w q (Hn & Hv & Hcl). unfold at_most_one_open.
    rewrite sever_length. split; [exact Hn|]. split; [exact Hv|].
    intros p Hr Hne. rewrite session_closing_sever. now apply Hcl. }
  assert (H0 : at_most_one_open n0 (sys_client s0) (sys_world s0)).
  { eapply (Dial_preserves E (at_most_one_open n0)); [|  | exact HD].
    - apply Reset_keeps_at_most_one_open.
    - subst n0. split; [lia|]. split; [discriminate|]. intros p Hr. lia. }
  destruct (run_preserves E (at_most_one_open n0) Hext
              (Reset_keeps_at_most_one_open E n0) HClose Hsev acts s0 H0) as (_ & Hv & Hcl).
  split; [exact Hv | exact Hcl].
Qed.

(** Three resets of a connected client: sessions 0, 1 and 2 are closing,
    session 3 is the one in use. *)
Lemma at_most_one_session_open_witness :
  let E := friendly_env in
  let s := run E [ActCmd CmdReset; ActCmd CmdReset; ActCmd CmdReset] (dialed E [CallWithBlock]) in
  getClient (sys_client s) = Some 3%nat /\
  length (sessions (sys_world s)) = 4%nat /\
  session_closing (sys_world s) 1 = true.
Proof.
  intros E s.
  destruct (at_most_one_session_open E "tcp" "127.0.0.1:9000" (map option_of [CallWithBlock])
              empty_world (dialed E [CallWithBlock])
              [ActCmd CmdReset; ActCmd CmdReset; ActCmd CmdReset] eq_refl) as [_ H].
  split; [reflexivity|]. split; [reflexivity|].
  apply (H 1%nat); [cbn; lia | discriminate].
Defined.

(** ** What calls do, and what they never do *)

Lemma only_requests_app ptr evs1 evs2 :
  only_requests ptr evs1 -> only_requests ptr evs2 -> only_requests ptr (evs1 ++ evs2).
Proof. unfold only_requests. intros. now apply Forall_app. Qed.

Lemma callContext_requests E c ctx m a w :
  exists evs,
    snd (callContext E c ctx m a w) = mkWorld (sessions w) (trace w ++ evs) /\
    only_requests (getClient c) evs.
Proof.
  unfold callContext. destruct (getClient c) as [p|].
  - exists [EvGo p m a]. split.
    + pose proof (rpc_Go_sessions E p m a w) as Hs.
      pose proof (rpc_Go_trace E p m a w) as Ht.
      destruct (is_Background ctx), (rpc_Go E p m a w) as [call [ss tr]];
        cbn in *; now subst.
    + constructor; [|constructor]. eauto.
  - exists []. split; [|constructor]. cbn. rewrite app_nil_r. now destruct w.
Qed.

Lemma goContext_requests E c ctx m a w :
  exists evs,
    snd (goContext E c ctx m a w) = mkWorld (sessions w) (trace w ++ evs) /\
    only_requests (getClient c) evs.
Proof.
  rewrite goContext_world. destruct (getClient c) as [p|].
  - exists [EvGo p m a]. split; [|constructor; [eauto | constructor]].
    now rewrite rpc_Go_world.
  - exists []. split; [|constructor]. cbn. rewrite app_nil_r. now destruct w.
Qed.

Lemma intercept_call_requests ptr body invoker :
  (forall ctx m a w, exists evs,
      snd (invoker ctx m a w) = mkWorld (sessions w) (trace w ++ evs) /\
      only_requests ptr evs) ->
  forall w, exists evs,
    snd (intercept_call body invoker w) = mkWorld (sessions w) (trace w ++ evs) /\
    only_requests ptr evs.
Proof.
  intros Hinv. induction body as [r|ctx m a k IH]; intros w; cbn.
  - exists []. split; [|constructor]. rewrite app_nil_r. now destruct w.
  - destruct (Hinv ctx m a w) as (evs1 & H1 & R1).
    destruct (invoker ctx m a w) as [[err|] w1]; cbn in H1.
    + destruct (IH err w1) as (evs2 & H2 & R2).
      exists (evs1 ++ evs2). split; [|now apply only_requests_app].
      rewrite H2, H1. cbn. now rewrite app_assoc.
    + exists evs1. auto.
Qed.

Lemma intercept_go_requests ptr body invoker :
  (forall ctx m a w, exists evs,
      snd (invoker ctx m a w) = mkWorld (sessions w) (trace w ++ evs) /\
      only_requests ptr evs) ->
  forall w, exists evs,
    snd (intercept_go body invoker w) = mkWorld (sessions w) (trace w ++ evs) /\
    only_requests ptr evs.
Proof.
  intros Hinv. induction body as [r|ctx m a k IH]; intros w; cbn.
  - exists []. split; [|constructor]. rewrite app_nil_r. now destruct w.
  - destruct (Hinv ctx m a w) as (evs1 & H1 & R1).
    destruct (invoker ctx m a w) as [[call|] w1]; cbn in H1.
    + destruct (IH call w1) as (evs2 & H2 & R2).
      exists (evs1 ++ evs2). split; [|now apply only_requests_app].
      rewrite H2, H1. cbn. now rewrite app_assoc.
    + exists evs1. auto.
Qed.

(** Calls only talk to the session in use.  Whatever the token, and
    whatever an interceptor does with the invoker, a synchronous or an
    asynchronous call leaves every session as it was and adds to the trace
    nothing but requests handed to the session the client refers to: it
    never dials, never closes a session, never logs, and without a session
    it does nothing at all. *)
Theorem calls_only_reach_the_session_in_use (E : Env) (c : Client) (ctx : Context)
    (m : string) (a : Payload) (w : World) :
  (exists evs,
     snd (CallContext E c ctx m a w) = mkWorld (sessions w) (trace w ++ evs) /\
     only_requests (getClient c) evs) /\
  (exists evs,
     snd (GoContext E c ctx m a w) = mkWorld (sessions w) (trace w ++ evs) /\
     only_requests (getClient c) evs) /\
  (getClient c = None ->
   snd (CallContext E c ctx m a w) = w /\ snd (GoContext E c ctx m a w) = w).
Proof.
  assert (HC : exists evs,
     snd (CallContext E c ctx m a w) = mkWorld (sessions w) (trace w ++ evs) /\
     only_requests (getClient c) evs).
  { unfold CallContext. destruct (callInterceptor _) as [i|].
    - apply intercept_call_requests. intros. apply callContext_requests.
    - apply callContext_requests. }
  assert (HG : exists evs,
     snd (GoContext E c ctx m a w) = mkWorld (sessions w) (trace w ++ evs) /\
     only_requests (getClient c) evs).
  { unfold GoContext. destruct (goInterceptor _) as [i|].
    - apply intercept_go_requests. intros. apply goContext_requests.
    - apply goContext_requests. }
  split; [exact HC|]. split; [exact HG|].
  intros Hnil. rewrite Hnil in HC, HG.
  assert (Hempty : forall evs, only_requests None evs -> evs = []).
  { intros [|e evs] H; [reflexivity|]. inversion H as [|? ? (p & ? & ? & Hp & _) _].
    discriminate. }
  destruct HC as (evs1 & H1 & R1). destruct HG as (evs2 & H2 & R2).
  rewrite (Hempty _ R1) in H1. rewrite (Hempty _ R2) in H2.
  rewrite app_nil_r in H1, H2. rewrite H1, H2. now destruct w.
Qed.

(** ** Interceptors that delegate *)

Lemma callContext_peer E c ctx addr m a w :
  callContext E c (peer_NewContext ctx addr) m a w = callContext E c ctx m a w.
Proof.
  unfold callContext. destruct (getClient c) as [p|]; [|reflexivity].
  destruct ctx; reflexivity.
Qed.

Lemma goContext_peer E c ctx addr m a w :
  goContext E c (peer_NewContext ctx addr) m a w = goContext E c ctx m a w.
Proof.
  unfold goContext. destruct (getClient c) as [p|]; [|reflexivity].
  destruct ctx; cbn; try reflexivity.
  destruct (rpc_Go E p m a w) as [call w1]; reflexivity.
Qed.

(** An interceptor that only delegates is not seen.  With a call
    interceptor that passes the token, method and request it was given to
    the invoker and returns the invoker's result, [CallContext] does what
    the dispatcher does under the caller's own token (the address added to
    the token changes nothing, also for [context.Background()]); likewise
    for [GoContext] and a delegating go interceptor. *)
Theorem delegating_interceptors_are_transparent (E : Env) (c : Client) (ctx : Context)
    (m : string) (a : Payload) (w : World) :
  (callInterceptor (client_dialOptions c) = Some delegate_call ->
   CallContext E c ctx m a w = callContext E c ctx m a w) /\
  (goInterceptor (client_dialOptions c) = Some delegate_go ->
   GoContext E c ctx m a w = goContext E c ctx m a w).
Proof.
  split; intros Hi.
  - unfold CallContext. rewrite Hi. cbn. rewrite callContext_peer.
    now destruct (callContext E c ctx m a w) as [[err|] w1].
  - unfold GoContext. rewrite Hi. cbn. rewrite goContext_peer.
    now destruct (goContext E c ctx m a w) as [[call|] w1].
Qed.

(** A connected client with both delegating interceptors installed. *)
Lemma delegating_interceptors_are_transparent_witness :
  let E := friendly_env in
  let s := dialed E [CallWithBlock; CallWithCallInterceptor (Some delegate_call);
                     CallWithGoInterceptor (Some delegate_go)] in
  Call E (sys_client s) "Arith.Add" (Data "1,2") (sys_world s) =
    callContext E (sys_client s) Background "Arith.Add" (Data "1,2") (sys_world s) /\
  Go E (sys_client s) "Arith.Add" (Data "1,2") (sys_world s) =
    goContext E (sys_client s) Background "Arith.Add" (Data "1,2") (sys_world s).
Proof.
  intros E s.
  destruct (delegating_interceptors_are_transparent E (sys_client s) Background
              "Arith.Add" (Data "1,2") (sys_world s)) as [H1 H2].
  split; [exact (H1 eq_refl) | exact (H2 eq_refl)].
Defined.

(** [Call] is [Go] followed by the wait on the call's Done channel: with no
    interceptors installed, [Call] returns the error the future of [Go]
    completes with, never returns when that future is never completed, and
    leaves the same world. *)
Theorem Call_awaits_Go (E : Env) (c : Client) (m : string) (a : Payload) (w : World) :
  callInterceptor (client_dialOptions c) = None ->
  goInterceptor (client_dialOptions c) = None ->
  Call E c m a w = (await (fst (Go E c m a w)), snd (Go E c m a w)).
Proof.
  intros Hc Hg. unfold Call, CallContext, Go, GoContext. rewrite Hc, Hg.
  unfold callContext, goContext. destruct (getClient c) as [p|]; [|reflexivity].
  cbn. now destruct (rpc_Go E p m a w).
Qed.

(** On a server that never answers the future is never completed and
    [Call] does not return. *)
Lemma Call_awaits_Go_witness :
  let s := dialed silent_env [CallWithBlock] in
  fst (Call silent_env (sys_client s) "Arith.Add" (Data "1,2") (sys_world s)) = Blocked.
Proof.
  intros s.
  rewrite (Call_awaits_Go silent_env (sys_client s) "Arith.Add" (Data "1,2") (sys_world s)
             eq_refl eq_refl).
  reflexivity.
Defined.

(** ** Dial without [WithBlock] *)

(** A non-blocking [Dial] cannot fail and does nothing to the network
    before it returns: the client has no session yet, every dispatched call
    returns ErrShutdown, and the connect is left to the background.  When
    that connect then fails, the error is logged and nothing else changes;
    when it succeeds, the client refers to the new session. *)
Theorem nonblocking_Dial_connects_in_background (E : Env) (n a : string)
    (opts : list DialOption) (w : World) :
  let o := Dial_options n a opts in
  block o = false ->
  exists s0,
    Dial E n a opts w = inl s0 /\
    sys_world s0 = w /\
    getClient (sys_client s0) = None /\
    connecting s0 = true /\
    (forall ctx m args,
       callContext E (sys_client s0) ctx m args w = (Returned (Some ErrShutdown), w)) /\
    (forall derr, dial_answer E (length (trace w)) n a (timeout o) = Some derr ->
       exists l,
         logger o = Some l /\
         step E ActConnect s0 =
           mkSystem (sys_client s0)
             (mkWorld (sessions w)
                (trace w ++ [EvDial n a (timeout o) (30 * Second);
                             EvErrorf l "[error][rpcx]: Reset: %s" derr]))
             false (monitoring s0)) /\
    (dial_answer E (length (trace w)) n a (timeout o) = None ->
     getClient (sys_client (step E ActConnect s0)) = Some (length (sessions w)) /\
     connecting (step E ActConnect s0) = false).
Proof.
  intros o Hblock. unfold Dial. fold o. rewrite Hblock.
  eexists. split; [reflexivity|]. cbn.
  destruct (Dial_options_network_address n a opts) as [Hn Ha]. fold o in Hn, Ha.
  split; [reflexivity|]. split; [reflexivity|]. split; [reflexivity|].
  split; [intros; reflexivity|]. split.
  - intros derr Hd. destruct (logger o) as [l|] eqn:Hl.
    2:{ now apply Dial_logger in Hl. }
    exists l. split; [reflexivity|].
    unfold Reset, Reset_dial. cbn. rewrite Hn, Ha, Hd. cbn.
    unfold Errorf. cbn. rewrite Hl. unfold emit. cbn.
    now rewrite <- app_assoc.
  - intros Hd. unfold Reset, Reset_dial. cbn. rewrite Hn, Ha, Hd. cbn. auto.
Qed.

(** No listener and no [WithBlock]: [Dial] succeeds, the background connect
    logs its failure. *)
Lemma nonblocking_Dial_connects_in_background_witness :
  let E := refusing_env in
  let s0 := dialed E [] in
  getClient (sys_client s0) = None /\
  trace (sys_world (step E ActConnect s0)) =
    [EvDial "tcp" "127.0.0.1:9000" 0 (30 * Second);
     EvErrorf defaultLogger "[error][rpcx]: Reset: %s" (OtherError "connection refused")].
Proof.
  intros E s0.
  destruct (nonblocking_Dial_connects_in_background E "tcp" "127.0.0.1:9000" [] empty_world
              eq_refl) as (s & HD & _ & Hptr & _ & _ & Hfail & _).
  assert (Hs : s = s0) by (injection HD as <-; reflexivity). subst s.
  split; [exact Hptr|].
  destruct (Hfail (OtherError "connection refused") eq_refl) as (l & Hl & Hstep).
  rewrite Hstep. cbn. injection Hl as <-. reflexivity.
Defined.

(** ** Reset: order of effects, and failures *)

(** A successful [Reset] acts in this order and does nothing else: it calls
    Close on the session held (if any), dials the configured network and
    address with the configured timeout and a keep-alive of 30 seconds, and
    creates the new session. *)
Theorem Reset_closes_then_dials (E : Env) (c : Client) (w : World) c' w' :
  Reset E c w = (None, c', w') ->
  let o := client_dialOptions c in
  trace w' =
    trace w ++
    match getClient c with Some p => [EvClose p] | None => [] end ++
    [EvDial (network o) (address o) (timeout o) (30 * Second);
     EvNewClient (length (sessions w))].
Proof.
  intros HR. cbv zeta.
  assert (Hdial : forall c0 w0,
            client_dialOptions c0 = client_dialOptions c ->
            length (sessions w0) = length (sessions w) ->
            Reset_dial E c0 w0 = (None, c', w') ->
            trace w' = trace w0 ++
              [EvDial (network (client_dialOptions c)) (address (client_dialOptions c))
                 (timeout (client_dialOptions c)) (30 * Second);
               EvNewClient (length (sessions w))]).
  { intros c0 w0 Ho Hl. unfold Reset_dial. rewrite Ho.
    destruct (dial_answer _ _ _ _ _); [discriminate|].
    cbn. intros [= _ <-]. cbn. rewrite Hl. now rewrite <- app_assoc. }
  revert HR. unfold Reset. destruct (closed c); [discriminate|].
  destruct (getClient c) as [p|].
  - pose proof (rpc_Close_length E p w) as Hlen.
    assert (Htr : trace (snd (rpc_Close E p w)) = trace w ++ [EvClose p]).
    { unfold rpc_Close. destruct (sessions w !! p) as [r|]; [|reflexivity].
      destruct (closing r); reflexivity. }
    destruct (rpc_Close E p w) as [[e|] w1]; cbn in Hlen, Htr.
    + destruct (is_ErrShutdown e); [|discriminate].
      intros H. rewrite (Hdial (set_closeCanBeCalled false c) w1 eq_refl Hlen H), Htr.
      now rewrite <- app_assoc.
    + intros H. rewrite (Hdial (set_closeCanBeCalled false c) w1 eq_refl Hlen H), Htr.
      now rewrite <- app_assoc.
  - intros H. now rewrite (Hdial c w eq_refl eq_refl H).
Qed.

(** The reset of a connected client. *)
Lemma Reset_closes_then_dials_witness :
  let E := friendly_env in
  let s := dialed E [CallWithBlock; CallWithTimeout Second] in
  trace (snd (Reset E (sys_client s) (sys_world s))) =
    trace (sys_world s) ++
    [EvClose 0; EvDial "tcp" "127.0.0.1:9000" Second (30 * Second); EvNewClient 1].
Proof.
  intros E s.
  exact (Reset_closes_then_dials E (sys_client s) (sys_world s)
           (snd (fst (Reset E (sys_client s) (sys_world s))))
           (snd (Reset E (sys_client s) (sys_world s))) eq_refl).
Defined.

(** A close error aborts the reset.  When Close of the session held
    returns an error other than ErrShutdown, [Reset] returns that error
    without dialing; the client keeps referring to the old session with the
    permission withdrawn, so that the caller's own [Close] afterwards
    returns nil without calling the session again. *)
Theorem Reset_aborted_by_close_error (E : Env) (c : Client) (w : World) (p : nat) (e : error) :
  closed c = false ->
  getClient c = Some p ->
  fst (rpc_Close E p w) = Some e ->
  e <> ErrShutdown ->
  let c' := set_closeCanBeCalled false c in
  let w' := snd (rpc_Close E p w) in
  Reset E c w = (Some e, c', w') /\
  trace w' = trace w ++ [EvClose p] /\
  Close E c' w' = (None, set_closeCanBeCalled true (set_closed true c), w').
Proof.
  intros Hcl Hp He Hne. cbv zeta.
  assert (Hs : is_ErrShutdown e = false) by (destruct e; cbn; congruence).
  split; [|split].
  - unfold Reset. rewrite Hcl, Hp.
    destruct (rpc_Close E p w) as [err w1]. cbn in He. subst err. now rewrite Hs.
  - unfold rpc_Close. destruct (sessions w !! p) as [r|]; [|reflexivity].
    destruct (closing r); reflexivity.
  - unfold Close, getClient in *. cbn. now rewrite Hp.
Qed.

(** A codec that fails to close: the reset of a connected client returns
    the codec's error, and the caller's [Close] then returns nil. *)
Lemma Reset_aborted_by_close_error_witness :
  let E := broken_close_env in
  let s := dialed E [CallWithBlock] in
  fst (fst (Reset E (sys_client s) (sys_world s))) = Some (OtherError "broken pipe") /\
  fst (fst (Close E (snd (fst (Reset E (sys_client s) (sys_world s))))
              (snd (Reset E (sys_client s) (sys_world s))))) = None.
Proof.
  intros E s.
  destruct (Reset_aborted_by_close_error E (sys_client s) (sys_world s) 0
              (OtherError "broken pipe") eq_refl eq_refl eq_refl ltac:(discriminate))
    as (HR & _ & HC).
  rewrite HR. cbn [fst snd]. rewrite HC. split; reflexivity.
Defined.

(** When [Reset] gets as far as dialing, what it returns is what the dial
    answered. *)
Lemma Reset_returns_dial_answer E c w :
  Reset_reaches_dial E c w = true ->
  fst (fst (Reset E c w)) = Reset_dial_answer E c w.
Proof.
  unfold Reset_reaches_dial, Reset_dial_answer, world_at_dial, Reset.
  destruct (closed c); [discriminate|]. cbn [negb andb].
  assert (Hdial : forall c0 w0, client_dialOptions c0 = client_dialOptions c ->
            fst (fst (Reset_dial E c0 w0)) =
            dial_answer E (length (trace w0)) (network (client_dialOptions c))
              (address (client_dialOptions c)) (timeout (client_dialOptions c))).
  { intros c0 w0 Ho. unfold Reset_dial. rewrite Ho.
    now destruct (dial_answer _ _ _ _ _). }
  destruct (getClient c) as [p|]; [|intros _; now apply Hdial].
  destruct (rpc_Close E p w) as [[e|] w1]; cbn [fst snd].
  - intros ->. now apply Hdial.
  - intros _. now apply Hdial.
Qed.

(** A failed reconnect can always be retried.  On a dialed client that is
    not closed and whose close permission is withdrawn (a reset failed after
    closing the session), the next [Reset] is not stopped by the session it
    already closed: it gets as far as dialing, and returns what that dial
    answers, nil included. *)
Theorem failed_Reset_can_be_retried (E : Env) (s : System) :
  reachable E s ->
  closed (sys_client s) = false ->
  closeCanBeCalled (sys_client s) = false ->
  Reset_reaches_dial E (sys_client s) (sys_world s) = true /\
  fst (fst (Reset E (sys_client s) (sys_world s))) =
    Reset_dial_answer E (sys_client s) (sys_world s).
Proof.
  intros Hreach Hcl Hf. pose proof (reachable_inv E s Hreach) as Hinv.
  assert (H : Reset_reaches_dial E (sys_client s) (sys_world s) = true).
  { destruct (inv_permission _ _ Hinv Hf) as (p & Hp & _ & Hclosing).
    unfold Reset_reaches_dial, getClient. rewrite Hcl, Hp. cbn.
    unfold session_closing in Hclosing. unfold rpc_Close.
    destruct (sessions (sys_world s) !! p) as [r|]; [|discriminate].
    now rewrite Hclosing. }
  split; [exact H | now apply Reset_returns_dial_answer].
Qed.

(** After a reset that was refused, on a network that refuses again. *)
Lemma failed_Reset_can_be_retried_witness :
  let E := one_dial_env in
  let s := step E (ActCmd CmdReset) (dialed E [CallWithBlock]) in
  fst (fst (Reset E (sys_client s) (sys_world s))) = Some (OtherError "connection refused").
Proof.
  intros E s.
  assert (Hreach : reachable E s).
  { apply reachable_step. exact dialed_one_dial_reachable. }
  rewrite (proj2 (failed_Reset_can_be_retried E s Hreach eq_refl eq_refl)). reflexivity.
Defined.

(** ** Options are applied in order *)

Lemma last_some_options ocs : forall o,
  let o' := apply_options (map option_of ocs) o in
  block o' = (block o || existsb is_WithBlock ocs)%bool /\
  logger o' = match last_some logger_of ocs with Some l => Some l | None => logger o end /\
  callInterceptor o' =
    match last_some call_interceptor_of ocs with Some i => Some i | None => callInterceptor o end /\
  goInterceptor o' =
    match last_some go_interceptor_of ocs with Some i => Some i | None => goInterceptor o end.
Proof.
  induction ocs as [|oc rest IH]; intros o; cbv zeta.
  - cbn. rewrite orb_false_r. auto.
  - cbn [map]. rewrite apply_options_cons.
    destruct (IH (option_of oc o)) as (Hb & Hl & Hc & Hg).
    rewrite Hb, Hl, Hc, Hg. cbn [existsb last_some]. clear.
    assert (Hfields :
      block (option_of oc o) = (block o || is_WithBlock oc)%bool /\
      logger (option_of oc o) = match logger_of oc with Some l => Some l | None => logger o end /\
      callInterceptor (option_of oc o) =
        match call_interceptor_of oc with Some i => Some i | None => callInterceptor o end /\
      goInterceptor (option_of oc o) =
        match go_interceptor_of oc with Some i => Some i | None => goInterceptor o end).
    { destruct oc as [d| |[lg|]|m i h|[ci|]|[gi|]]; cbn;
        try (unfold WithHeartbeat; destruct (String.eqb m ""); cbn);
        rewrite ?orb_true_r, ?orb_false_r; auto. }
    destruct Hfields as (Fb & Fl & Fc & Fg). rewrite Fb, Fl, Fc, Fg.
    split; [now rewrite orb_assoc|].
    split; [now destruct (last_some logger_of rest)|].
    split; [now destruct (last_some call_interceptor_of rest)|].
    now destruct (last_some go_interceptor_of rest).
Qed.

(** Options of one kind override each other in the order given, and nil
    values are ignored.  The client blocks in [Dial] exactly when some
    [WithBlock] was given; its logger is the last non-nil logger given, the
    default logger when there is none; its call and go interceptors are the
    last non-nil ones given, none when there is none. *)
Theorem options_last_one_wins (n a : string) (ocs : list OptionCall) :
  let o := Dial_options n a (map option_of ocs) in
  block o = existsb is_WithBlock ocs /\
  logger o = Some (match last_some logger_of ocs with Some l => l | None => defaultLogger end) /\
  callInterceptor o = last_some call_interceptor_of ocs /\
  goInterceptor o = last_some go_interceptor_of ocs.
Proof.
  cbv zeta. unfold Dial_options. rewrite apply_options_app. cbn.
  destruct (last_some_options ocs zero_dialOptions) as (Hb & Hl & Hc & Hg).
  cbn in Hb, Hl, Hc, Hg.
  destruct (logger (apply_options (map option_of ocs) zero_dialOptions)) as [l|] eqn:Hlog;
    cbn; rewrite ?Hlog, Hb, Hc, Hg.
  - destruct (last_some logger_of ocs); [|discriminate].
    repeat split; try congruence.
    + now destruct (last_some call_interceptor_of ocs).
    + now destruct (last_some go_interceptor_of ocs).
  - destruct (last_some logger_of ocs); [discriminate|].
    repeat split.
    + now destruct (last_some call_interceptor_of ocs).
    + now destruct (last_some go_interceptor_of ocs).
Qed.

(** ** Asynchronous calls under a token that never fires *)

(** Under a token that never fires, [goContext] returns the call the
    session's Go returned, exactly as it does under
    [context.Background()]: the goroutine and the select in between change
    neither the result nor the world. *)
Theorem goContext_never_firing_token (E : Env) (c : Client) (ctx : Context)
    (m : string) (a : Payload) (w : World) :
  ctx_Done ctx = None ->
  goContext E c ctx m a w = goContext E c Background m a w /\
  (forall p, getClient c = Some p -> goContext E c ctx m a w = rpc_Go E p m a w).
Proof.
  intros Hnever.
  assert (H : forall p, getClient c = Some p -> goContext E c ctx m a w = rpc_Go E p m a w).
  { intros p Hp. unfold goContext. rewrite Hp.
    destruct (is_Background ctx); [reflexivity|].
    rewrite Hnever. now destruct (rpc_Go E p m a w). }
  split; [|exact H].
  destruct (getClient c) as [p|] eqn:Hp.
  - rewrite (H p eq_refl). unfold goContext. now rewrite Hp.
  - unfold goContext. now rewrite Hp.
Qed.

(** A value context over a context that is never cancelled, on a server
    that never answers: the call in flight is returned, not yet done. *)
Lemma goContext_never_firing_token_witness :
  let s := dialed silent_env [CallWithBlock] in
  let ctx := context_WithValue (context_WithCancel Background None) "trace-id" "42" in
  option_map Done
    (fst (goContext silent_env (sys_client s) ctx "Arith.Add" (Data "1,2") (sys_world s))) =
    Some false.
Proof.
  intros s ctx.
  rewrite (proj1 (goContext_never_firing_token silent_env (sys_client s) ctx
                    "Arith.Add" (Data "1,2") (sys_world s) eq_refl)).
  reflexivity.
Defined.

(** ** The race in [callContext] *)

(** Once the session's Go has returned the call, [callContext] returns what
    completes first, the call's error or the token's, and nothing else; when
    both are ready at once either may be returned; and it waits for ever
    exactly when neither the call completes nor the token fires. *)
Theorem callContext_races_once_Go_returned (E : Env) (c : Client) (ctx : Context) (m : string)
    (a : Payload) (w : World) (p : nat) (call : rpcCall) :
  getClient c = Some p ->
  fst (rpc_Go E p m a w) = Some call ->
  let r := fst (callContext E c ctx m a w) in
  (r = Blocked <-> completion call = None /\ ctx_Done ctx = None) /\
  (forall d err, completion call = Some (d, err) ->
     ctx_Done ctx = None \/ (exists t cerr, ctx_Done ctx = Some (t, cerr) /\ (d < t)%N) ->
     r = Returned err) /\
  (forall t cerr, ctx_Done ctx = Some (t, cerr) ->
     completion call = None \/ (exists d err, completion call = Some (d, err) /\ (t < d)%N) ->
     r = Returned (Some cerr)) /\
  (forall d err t cerr, completion call = Some (d, err) -> ctx_Done ctx = Some (t, cerr) ->
     r = Returned err \/ r = Returned (Some cerr)).
Proof.
  intros Hp HGo. cbv zeta. unfold callContext. rewrite Hp.
  destruct (rpc_Go E p m a w) as [call' w1]. cbn [fst] in HGo. subst call'.
  destruct (is_Background ctx) eqn:Hbg.
  - apply is_Background_never in Hbg. cbn [fst snd]. unfold await. rewrite Hbg.
    destruct (completion call) as [[d err]|].
    + split; [split; [discriminate | intros [? _]; discriminate]|].
      split; [intros ? ? [= <- <-] _; reflexivity|].
      split; intros; discriminate.
    + split; [split; auto|].
      split; [intros; discriminate|]. split; intros; discriminate.
  - cbn [fst snd]. unfold select_call.
    destruct (completion call) as [[d err]|], (ctx_Done ctx) as [[t cerr]|].
    + destruct (N.ltb_spec d t) as [Hdt|Hdt]; [|destruct (N.ltb_spec t d) as [Htd|Htd]].
      * split; [split; [discriminate | intros [? _]; discriminate]|].
        split; [intros ? ? [= <- <-] _; reflexivity|].
        split; [|intros ? ? ? ? [= <- <-] [= <- <-]; now left].
        intros ? ? [= <- <-] [?|(d' & err' & [= <- <-] & Hlt)]; [discriminate | lia].
      * split; [split; [discriminate | intros [? _]; discriminate]|].
        split; [|split; [intros ? ? [= <- <-] _; reflexivity|]].
        -- intros ? ? [= <- <-] [?|(t' & cerr' & [= <- <-] & Hlt)]; [discriminate | lia].
        -- intros ? ? ? ? [= <- <-] [= <- <-]; now right.
      * destruct (select_first E _).
        -- split; [split; [discriminate | intros [? _]; discriminate]|].
           split; [intros ? ? [= <- <-] _; reflexivity|].
           split; [|intros ? ? ? ? [= <- <-] [= <- <-]; now left].
           intros ? ? [= <- <-] [?|(d' & err' & [= <- <-] & Hlt)]; [discriminate | lia].
        -- split; [split; [discriminate | intros [? _]; discriminate]|].
           split; [|split; [intros ? ? [= <- <-] _; reflexivity|]].
           ++ intros ? ? [= <- <-] [?|(t' & cerr' & [= <- <-] & Hlt)]; [discriminate | lia].
           ++ intros ? ? ? ? [= <- <-] [= <- <-]; now right.
    + split; [split; [discriminate | intros [? _]; discriminate]|].
      split; [intros ? ? [= <- <-] _; reflexivity|].
      split; intros; discriminate.
    + split; [split; [discriminate | intros [_ ?]; discriminate]|].
      split; [intros; discriminate|].
      split; [intros ? ? [= <- <-] _; reflexivity | intros; discriminate].
    + split; [split; auto|].
      split; [intros; discriminate|]. split; intros; discriminate.
Qed.

(** A server that never answers and a token with a deadline of one
    millisecond: the call returns DeadlineExceeded. *)
Lemma callContext_races_once_Go_returned_witness :
  let E := silent_env in
  let s := dialed E [CallWithBlock] in
  let ctx := context_WithTimeout Background Millisecond in
  fst (callContext E (sys_client s) ctx "Arith.Add" (Data "1,2") (sys_world s)) =
    Returned (Some DeadlineExceeded).
Proof.
  intros E s ctx.
  destruct (callContext_races_once_Go_returned E (sys_client s) ctx "Arith.Add" (Data "1,2")
              (sys_world s) 0 (mkCall "Arith.Add" (Data "1,2") None false None)
              eq_refl eq_refl) as (_ & _ & Htoken & _).
  apply (Htoken (Z.to_N Millisecond) DeadlineExceeded eq_refl). now left.
Defined.

(** ** The first Close *)

(** On a dialed client that is open and has the close permission, [Close]
    calls Close on the session in use, once, and returns what the session's
    codec returns; the session is closing afterwards and the client is
    closed. *)
Theorem first_Close_returns_the_codec_result (E : Env) (s : System) (p : nat) :
  reachable E s ->
  closed (sys_client s) = false ->
  closeCanBeCalled (sys_client s) = true ->
  getClient (sys_client s) = Some p ->
  let r := Close E (sys_client s) (sys_world s) in
  fst (fst r) = codec_Close E (length (trace (sys_world s))) p /\
  trace (snd r) = trace (sys_world s) ++ [EvClose p] /\
  session_closing (snd r) p = true /\
  closed (snd (fst r)) = true /\
  getClient (snd (fst r)) = Some p.
Proof.
  intros Hreach Hcl Hf Hp. cbv zeta.
  pose proof (reachable_inv E s Hreach) as Hinv.
  pose proof (reachable_session_in_use_open E s Hreach Hcl Hf p Hp) as Hopen.
  destruct (lookup_lt_is_Some_2 _ _ (inv_valid _ _ Hinv p Hp)) as [r Hr].
  unfold session_closing in Hopen. rewrite Hr in Hopen.
  unfold Close, getClient in *. cbn. rewrite Hp, Hf. cbn.
  unfold rpc_Close. rewrite Hr, Hopen. cbn.
  repeat split; try assumption.
  unfold session_closing. cbn.
  rewrite list_lookup_insert_eq by (eapply lookup_lt_Some; eauto). reflexivity.
Qed.

(** The close of a connected client whose codec fails to close. *)
Lemma first_Close_returns_the_codec_result_witness :
  let E := broken_close_env in
  let s := dialed E [CallWithBlock] in
  fst (fst (Close E (sys_client s) (sys_world s))) = Some (OtherError "broken pipe").
Proof.
  intros E s.
  assert (Hreach : reachable E s) by (eapply dialed_reachable; reflexivity).
  rewrite (proj1 (first_Close_returns_the_codec_result E s 0 Hreach eq_refl eq_refl eq_refl)).
  reflexivity.
Defined.
